(** * ClueMeisterRANK: the deterministic clue-ranking agent

    A shallow embedding of [src/ClueMeisterRANK.py]: the request dispatcher
    [process_request], the ranking engine [rank_clues] and its helpers
    [_parse_clue], [_min_distance_to_path] and [_euclidean_distance].

    Python values are modelled as the interpreter has them:
    - [float] is IEEE 754 binary64, here [spec_float] with [prec = 53] and
      [emax = 1024], rounded to nearest even;
    - [int] is [Z];
    - [str] is [string], restricted to ASCII text;
    - an exception is a value of [PyExc] carried by the [result] monad, and
      [try ... except Exception] is [try_except];
    - a message is first taken with the types [ClueMessage] declares; the
      module [Dyn] is the same agent on messages that hold any value, and
      the typed agent is proved to be its restriction. *)

From Stdlib Require Import ZArith List String Ascii Bool Lia.
From Stdlib Require Import Permutation Sorted.
From Stdlib Require Import Floats.
Import ListNotations.

Local Open Scope Z_scope.

(* ================================================================== *)
(** * Exceptions *)

Inductive PyExc : Set :=
| IndexError
| KeyError
| ValueError
| OverflowError
| TypeError.

Inductive result (A : Type) : Type :=
| Ok (a : A)
| Raise (e : PyExc).

Arguments Ok {A} a.
Arguments Raise {A} e.

Definition bind {A B : Type} (m : result A) (k : A -> result B) : result B :=
  match m with
  | Ok a => k a
  | Raise e => Raise e
  end.

Notation "x <- m ;; k" := (bind m (fun x => k))
  (at level 61, m at next level, right associativity).
Notation "' pat <- m ;; k" := (bind m (fun x => match x with pat => k end))
  (at level 61, pat pattern, m at next level, right associativity).

(** [try: body except Exception: handler]. Every member of [PyExc] derives
    from [Exception]. *)
Definition try_except {A : Type} (body : result A) (handler : PyExc -> result A)
  : result A :=
  match body with
  | Ok a => Ok a
  | Raise e => handler e
  end.

(** [xs[i]] on a list. *)
Definition py_index {A : Type} (xs : list A) (i : nat) : result A :=
  match nth_error xs i with
  | Some x => Ok x
  | None => Raise IndexError
  end.

(* ================================================================== *)
(** * Floating point: binary64 *)

Module F64.

Definition prec : Z := 53.
Definition emax : Z := 1024.

Definition float : Set := spec_float.

Definition add : float -> float -> float := SFadd prec emax.
Definition sub : float -> float -> float := SFsub prec emax.
Definition mul : float -> float -> float := SFmul prec emax.
Definition sqrt : float -> float := SFsqrt prec emax.
Definition ltb : float -> float -> bool := SFltb.
Definition leb : float -> float -> bool := SFleb.

Definition is_nan (x : float) : bool :=
  match x with
  | S754_nan => true
  | _ => false
  end.

(** [float(n)] for an [int] [n]: the nearest binary64 value. *)
Definition of_int (n : Z) : float := binary_normalize prec emax n 0 false.

(** The binary64 value nearest to [(-1)^neg * m * 10^e10], for [0 <= m].
    A negative power of ten is divided out with one sticky bit kept below
    the quotient, so that the final rounding sees on which side of every
    rounding boundary the exact quotient lies. *)
Definition of_decimal (neg : bool) (m : Z) (e10 : Z) : float :=
  let sgn := fun x : Z => if neg then - x else x in
  if m =? 0 then S754_zero neg
  else if 0 <=? e10 then binary_normalize prec emax (sgn (m * 10 ^ e10)) 0 false
  else
    let d := 10 ^ (- e10) in
    let sh := Z.log2_up d + 64 in
    let n := m * 2 ^ sh in
    let q := n / d in
    let sticky := if n mod d =? 0 then 0 else 1 in
    binary_normalize prec emax (sgn (2 * q + sticky)) (- sh - 1) false.

End F64.

(* ================================================================== *)
(** * Numbers: [int] and [float] *)

Inductive PyNum : Set :=
| PyInt (n : Z)
| PyFloat (x : F64.float).

Definition to_float (a : PyNum) : F64.float :=
  match a with
  | PyInt n => F64.of_int n
  | PyFloat x => x
  end.

(** [a + b] and [a - b]: integer arithmetic on two ints, otherwise the int
    operand is converted and the operation is the binary64 one. *)
Definition py_add (a b : PyNum) : PyNum :=
  match a, b with
  | PyInt m, PyInt n => PyInt (m + n)
  | _, _ => PyFloat (F64.add (to_float a) (to_float b))
  end.

Definition py_sub (a b : PyNum) : PyNum :=
  match a, b with
  | PyInt m, PyInt n => PyInt (m - n)
  | _, _ => PyFloat (F64.sub (to_float a) (to_float b))
  end.

(** Comparisons. Python compares an int with a float by value; for
    [|n| <= 2^53] that is the comparison with [float(n)], and the only ints
    the agent compares are [0] and the points of [CLUE_TYPE_POINTS]. *)
Definition py_lt (a b : PyNum) : bool :=
  match a, b with
  | PyInt m, PyInt n => m <? n
  | _, _ => F64.ltb (to_float a) (to_float b)
  end.

Definition py_gt (a b : PyNum) : bool := py_lt b a.

Definition py_le (a b : PyNum) : bool :=
  match a, b with
  | PyInt m, PyInt n => m <=? n
  | _, _ => F64.leb (to_float a) (to_float b)
  end.

Definition py_ge (a b : PyNum) : bool := py_le b a.

(** [max(a, b)]: the first argument is kept unless the second is greater. *)
Definition py_max (a b : PyNum) : PyNum :=
  if py_gt b a then b else a.

(** [x ** 2] on a float ([float_pow] with exponent [2.0]): NaN stays NaN, an
    infinity gives [+inf], a zero gives [+0.0]; a finite [x] is squared, and
    a result out of range raises [OverflowError] where the product [x * x]
    would give [inf]. The square is taken correctly rounded; the [pow] of
    the C library, which the interpreter calls, can differ from it in the
    last bit. *)
Definition float_pow2 (x : F64.float) : result F64.float :=
  match x with
  | S754_nan => Ok S754_nan
  | S754_infinity _ => Ok (S754_infinity false)
  | S754_zero _ => Ok (S754_zero false)
  | S754_finite _ _ _ =>
      match F64.mul (SFabs x) (SFabs x) with
      | S754_infinity _ => Raise OverflowError
      | r => Ok r
      end
  end.

(** [math.sqrt(x)]: a NaN result for an argument that is not NaN is a
    domain error. *)
Definition math_sqrt (x : F64.float) : result F64.float :=
  match F64.sqrt x, x with
  | S754_nan, S754_nan => Ok S754_nan
  | S754_nan, _ => Raise ValueError
  | r, _ => Ok r
  end.

(* ================================================================== *)
(** * Strings *)

Local Open Scope string_scope.

(** [c.isspace()] on ASCII: tab, line feed, vertical tab, form feed,
    carriage return, the four separators 0x1c-0x1f and the space. *)
Definition is_space (c : ascii) : bool :=
  let n := nat_of_ascii c in
  (((9 <=? n) && (n <=? 13)) || ((28 <=? n) && (n <=? 32)))%nat.

Fixpoint str_lstrip (s : string) : string :=
  match s with
  | EmptyString => EmptyString
  | String c s' => if is_space c then str_lstrip s' else s
  end.

Fixpoint str_rstrip (s : string) : string :=
  match s with
  | EmptyString => EmptyString
  | String c s' =>
      match str_rstrip s' with
      | EmptyString => if is_space c then EmptyString else String c EmptyString
      | r => String c r
      end
  end.

(** [s.strip()] *)
Definition str_strip (s : string) : string := str_rstrip (str_lstrip s).

(** The blanks that [float] and [int] drop around a number (ASCII): the
    space and the characters from tab to carriage return. [str.strip] drops
    the separators 0x1c-0x1f as well, the conversions do not. *)
Definition is_num_space (c : ascii) : bool :=
  let n := nat_of_ascii c in
  (((9 <=? n) && (n <=? 13)) || (n =? 32))%nat.

Fixpoint num_lstrip (s : string) : string :=
  match s with
  | EmptyString => EmptyString
  | String c s' => if is_num_space c then num_lstrip s' else s
  end.

Fixpoint num_rstrip (s : string) : string :=
  match s with
  | EmptyString => EmptyString
  | String c s' =>
      match num_rstrip s' with
      | EmptyString =>
          if is_num_space c then EmptyString else String c EmptyString
      | r => String c r
      end
  end.

Definition num_strip (s : string) : string := num_rstrip (num_lstrip s).

(** [s[n:]] *)
Fixpoint str_drop (n : nat) (s : string) : string :=
  match n, s with
  | O, _ => s
  | S _, EmptyString => EmptyString
  | S k, String _ s' => str_drop k s'
  end.

(** [s.split(sep)] for a non-empty [sep]: the pieces between the
    occurrences of [sep], found from the left and not overlapping. [cur] is
    the piece being read; [skip] counts the characters of a separator that
    has just been matched and are still to be passed over. *)
Fixpoint split_from (sep : string) (skip : nat) (cur : string) (s : string)
  : list string :=
  match s with
  | EmptyString => [cur]
  | String c s' =>
      match skip with
      | S k => split_from sep k cur s'
      | O =>
          if prefix sep s
          then cur :: split_from sep (String.length sep - 1) EmptyString s'
          else split_from sep 0 (cur ++ String c EmptyString) s'
      end
  end.

Definition str_split (sep s : string) : list string :=
  split_from sep 0 EmptyString s.

(** [s.partition(sep)] when [sep] occurs in [s]: the text before its first
    occurrence and the whole text after it. *)
Fixpoint str_partition (sep s : string) : option (string * string) :=
  if prefix sep s then Some (EmptyString, str_drop (String.length sep) s)
  else
    match s with
    | EmptyString => None
    | String c s' =>
        match str_partition sep s' with
        | Some (a, b) => Some (String c a, b)
        | None => None
        end
    end.

(** [sep in s] *)
Definition str_contains (sep s : string) : bool :=
  match str_partition sep s with
  | Some _ => true
  | None => false
  end.

(** ** [float(s)] on a string *)

Definition digit_val (c : ascii) : option Z :=
  let n := nat_of_ascii c in
  if ((48 <=? n) && (n <=? 57))%nat then Some (Z.of_nat n - 48) else None.

Definition lower (c : ascii) : ascii :=
  let n := nat_of_ascii c in
  if ((65 <=? n) && (n <=? 90))%nat then ascii_of_nat (n + 32) else c.

Fixpoint str_lower (s : string) : string :=
  match s with
  | EmptyString => EmptyString
  | String c s' => String (lower c) (str_lower s')
  end.

(** The rest of a digit part, after a digit: digits, each optionally
    preceded by one underscore. [m] is the number read so far and [n] the
    count of its digits; the result also holds the text that is left. *)
Fixpoint digits_tail (m : Z) (n : Z) (s : string) : Z * Z * string :=
  match s with
  | EmptyString => (m, n, s)
  | String c s' =>
      match digit_val c with
      | Some d => digits_tail (10 * m + d) (n + 1) s'
      | None =>
          if Ascii.eqb c "_"
          then
            match s' with
            | String c2 s'' =>
                match digit_val c2 with
                | Some d => digits_tail (10 * m + d) (n + 1) s''
                | None => (m, n, s)
                end
            | EmptyString => (m, n, s)
            end
          else (m, n, s)
      end
  end.

(** A digit part: [digit (["_"] digit)*]. *)
Definition digitpart (m : Z) (s : string) : option (Z * Z * string) :=
  match s with
  | String c s' =>
      match digit_val c with
      | Some d => Some (digits_tail (10 * m + d) 1 s')
      | None => None
      end
  | EmptyString => None
  end.

(** An optional sign: whether it is a minus, and the text after it. *)
Definition read_sign (s : string) : bool * string :=
  match s with
  | String c s' =>
      if Ascii.eqb c "-" then (true, s')
      else if Ascii.eqb c "+" then (false, s')
      else (false, s)
  | EmptyString => (false, s)
  end.

(** [number: [digitpart] "." digitpart | digitpart ["."]]: the digits as one
    integer, how many of them follow the point, and the text that is left. *)
Definition read_number (s : string) : option (Z * Z * string) :=
  match digitpart 0 s with
  | Some (m, _, String c r) =>
      if Ascii.eqb c "."
      then
        match digitpart m r with
        | Some (m', k, r') => Some (m', k, r')
        | None => Some (m, 0, r)
        end
      else Some (m, 0, String c r)
  | Some (m, _, EmptyString) => Some (m, 0, EmptyString)
  | None =>
      match s with
      | String c r =>
          if Ascii.eqb c "." then
            match digitpart 0 r with
            | Some (m', k, r') => Some (m', k, r')
            | None => None
            end
          else None
      | EmptyString => None
      end
  end.

(** [exponent: ("e" | "E") [sign] digitpart], or nothing; the text must end
    there. *)
Definition read_exponent (s : string) : option Z :=
  match s with
  | EmptyString => Some 0
  | String c r =>
      if Ascii.eqb (lower c) "e" then
        let '(neg, r') := read_sign r in
        match digitpart 0 r' with
        | Some (e, _, EmptyString) => Some (if neg then - e else e)
        | _ => None
        end
      else None
  end.

(** [float(s)]: the blanks around the number are dropped; the text is a
    signed decimal number with an optional exponent, or [inf], [infinity]
    or [nan] in any letter case. [None] stands for the [ValueError]. *)
Definition float_of_str (s : string) : option F64.float :=
  let '(neg, body) := read_sign (num_strip s) in
  let low := str_lower body in
  if String.eqb low "inf" || String.eqb low "infinity"
  then Some (S754_infinity neg)
  else if String.eqb low "nan" then Some S754_nan
  else
    match read_number body with
    | Some (m, k, r) =>
        match read_exponent r with
        | Some e => Some (F64.of_decimal neg m (e - k))
        | None => None
        end
    | None => None
    end.

Definition py_float (s : string) : result F64.float :=
  match float_of_str s with
  | Some x => Ok x
  | None => Raise ValueError
  end.

(* ================================================================== *)
(** * The agent *)

(** A coordinate is a [Tuple[float, float]]; the path is a list of them. *)
Definition Coord : Set := (F64.float * F64.float)%type.

(** The mapping [kb.get_clues()] returns, in its iteration order. The
    knowledge base itself is an external collaborator; the agent only reads
    this mapping from it. *)
Definition Clues : Set := list (Z * string).

(** ** ClueMessage: a [TypedDict] with [total=False], every key optional *)
Module Msg.
Record ClueMessage : Set := {
  get_clues : option bool;
  get_status : option bool;
  update_path : option (list Coord);
  rank_clues : option bool
}.
End Msg.

(** [message.get(key)] tested for truth: an absent key gives [None]. *)
Definition truthy (v : option bool) : bool :=
  match v with
  | Some b => b
  | None => false
  end.

(** [key in message] *)
Definition present {A : Type} (v : option A) : bool :=
  match v with
  | Some _ => true
  | None => false
  end.

(** ** CLUE_TYPE_POINTS *)
Definition CLUE_TYPE_POINTS : list (string * Z) :=
  [("IR signature", 30); ("red hat", 20); ("footprint", 10); ("unknown", 5)].

(** [d.get(key, default)] *)
Fixpoint dict_get (d : list (string * Z)) (key : string) (default : Z) : Z :=
  match d with
  | [] => default
  | (k, v) :: d' => if String.eqb k key then v else dict_get d' key default
  end.

(** [d[key]] *)
Fixpoint dict_getitem (d : list (string * Z)) (key : string) : result Z :=
  match d with
  | [] => Raise KeyError
  | (k, v) :: d' => if String.eqb k key then Ok v else dict_getitem d' key
  end.

(** ** The agent's attributes *)
Record ClueMeisterAgent : Set := {
  kb : Clues;
  path : list Coord;
  status : string
}.

(** [__init__] *)
Definition __init__ (kb0 : Clues) : ClueMeisterAgent :=
  {| kb := kb0; path := []; status := "initialized" |}.

(** ** Responses *)

(** The text of an error payload: a literal of the source, or [str(e)] of a
    caught exception (its wording is the interpreter's). *)
Inductive ErrorText : Set :=
| Literal (s : string)
| StrOf (e : PyExc).

(** One ranked record: [{"id": cid, "description": desc, "score": score}]. *)
Record RankedClue : Set := {
  id : Z;
  description : string;
  score : PyNum
}.

Inductive Response : Set :=
| RespClues (clues : Clues)
    (* {"clues": clues} *)
| RespStatus (s : string)
    (* {"status": s} *)
| RespPathUpdated (s : string) (path_length : nat)
    (* {"status": s, "path_length": n} *)
| RespRanked (ranked_clues : list RankedClue)
    (* {"ranked_clues": [...]} *)
| RespError (msg : ErrorText).
    (* {"error": msg} *)

(** ** Helpers of the ranking engine *)

Definition zero_coord : Coord := (S754_zero false, S754_zero false).

(** [_parse_clue] *)
Definition _parse_clue (desc : string) : result (string * Coord) :=
  let parts := str_split " at " desc in
  clue_type <-
    (if (1 <? List.length parts)%nat
     then (p0 <- py_index parts 0 ;; Ok (str_strip p0))
     else Ok "unknown") ;;
  coord <-
    try_except
      (p1 <- py_index parts 1 ;;
       match str_split "," p1 with
       | [lat_str; lon_str] =>
           lat <- py_float (str_strip lat_str) ;;
           lon <- py_float (str_strip lon_str) ;;
           Ok (lat, lon)
       | _ => Raise ValueError
       end)
      (fun _ => Ok zero_coord) ;;
  Ok (clue_type, coord).

(** [_euclidean_distance] *)
Definition _euclidean_distance (p1 p2 : Coord) : result F64.float :=
  dx2 <- float_pow2 (F64.sub (fst p1) (fst p2)) ;;
  dy2 <- float_pow2 (F64.sub (snd p1) (snd p2)) ;;
  math_sqrt (F64.add dx2 dy2).

(** [min(f(p) for p in ps)], after its first item [cur]: an item replaces the
    current minimum when it compares less. *)
Fixpoint min_rest {A : Type} (f : A -> result F64.float) (cur : F64.float)
  (ps : list A) : result F64.float :=
  match ps with
  | [] => Ok cur
  | p :: ps' =>
      d <- f p ;;
      min_rest f (if F64.ltb d cur then d else cur) ps'
  end.

(** [min(f(p) for p in ps)]: a [ValueError] on an empty sequence. *)
Definition py_min {A : Type} (f : A -> result F64.float) (ps : list A)
  : result F64.float :=
  match ps with
  | [] => Raise ValueError
  | p :: ps' => d <- f p ;; min_rest f d ps'
  end.

(** [_min_distance_to_path] *)
Definition _min_distance_to_path (self : ClueMeisterAgent) (coord : Coord)
  : result F64.float :=
  py_min (fun p => _euclidean_distance coord p) (path self).

(** ** [list.sort(key=..., reverse=True)]

    The sort is stable and compares keys with [<] only; in reverse it gives
    the keys in descending order and keeps items of equal key in their
    original order. [insert_desc] puts an item, which came before every item
    of the sorted list, in front of the first one that it is not less than. *)
Section Sort.
Context {A : Type} (key : A -> PyNum).

Fixpoint insert_desc (x : A) (l : list A) : list A :=
  match l with
  | [] => [x]
  | y :: l' =>
      if py_lt (key x) (key y) then y :: insert_desc x l'
      else x :: l
  end.

Fixpoint sort_reverse (l : list A) : list A :=
  match l with
  | [] => []
  | x :: l' => insert_desc x (sort_reverse l')
  end.
End Sort.

(** ** [rank_clues] *)

(** The body of the loop, for one item of [clues.items()]. *)
Definition score_clue (self : ClueMeisterAgent) (desc : string)
  : result PyNum :=
  '(clue_type, coord) <- _parse_clue desc ;;
  unknown <- dict_getitem CLUE_TYPE_POINTS "unknown" ;;
  let score := dict_get CLUE_TYPE_POINTS clue_type unknown in
  distance <- _min_distance_to_path self coord ;;
  let proximity_score :=
    py_max (PyInt 0) (py_sub (PyInt 100) (PyFloat distance)) in
  let total_score := py_add (PyInt score) proximity_score in
  Ok total_score.

(** The loop: [ranked.append((cid, desc, total_score))] for every clue. *)
Fixpoint rank_loop (self : ClueMeisterAgent) (clues : Clues)
  : result (list (Z * string * PyNum)) :=
  match clues with
  | [] => Ok []
  | (cid, desc) :: clues' =>
      total_score <- score_clue self desc ;;
      ranked <- rank_loop self clues' ;;
      Ok ((cid, desc, total_score) :: ranked)
  end.

(** One tuple of [ranked] as a record of the response:
    [{"id": cid, "description": desc, "score": score}]. *)
Definition to_record (t : Z * string * PyNum) : RankedClue :=
  let '(cid, desc, score) := t in
  {| id := cid; description := desc; score := score |}.

Definition rank_clues (self : ClueMeisterAgent) : result Response :=
  match path self with
  | [] => Ok (RespError (Literal "Path is not set"))
  | _ :: _ =>
      let clues := kb self in
      ranked <- rank_loop self clues ;;
      let ranked := sort_reverse (fun x => snd x) ranked in
      Ok (RespRanked (map to_record ranked))
  end.

(** [clues_to_text] *)
Definition clues_to_text (self : ClueMeisterAgent) : result Response :=
  Ok (RespClues (kb self)).

(** ** [process_request]

    The body of the [try] gives the agent after the request and the
    response. The one assignment, [self.path = message["update_path"]], is
    followed by [len(self.path)], which returns on a list, so on these
    messages a caught exception leaves the agent as it was. (The agent on
    messages that hold any value follows below, in [Dyn].) *)
Definition with_path (self : ClueMeisterAgent) (new_path : list Coord)
  : ClueMeisterAgent :=
  {| kb := kb self; path := new_path; status := status self |}.

(** [message[key]] *)
Definition msg_getitem {A : Type} (v : option A) : result A :=
  match v with
  | Some a => Ok a
  | None => Raise KeyError
  end.

Definition process_request_try (self : ClueMeisterAgent)
  (message : Msg.ClueMessage)
  : result (ClueMeisterAgent * Response) :=
  if truthy (Msg.get_clues message) then
    r <- clues_to_text self ;; Ok (self, r)
  else if truthy (Msg.get_status message) then
    Ok (self, RespStatus (status self))
  else if present (Msg.update_path message) then
    new_path <- msg_getitem (Msg.update_path message) ;;
    let self' := with_path self new_path in
    Ok (self', RespPathUpdated "path updated" (List.length (path self')))
  else if truthy (Msg.rank_clues message) then
    r <- rank_clues self ;; Ok (self, r)
  else Ok (self, RespError (Literal "Unknown request type")).

Definition process_request (self : ClueMeisterAgent) (message : Msg.ClueMessage)
  : ClueMeisterAgent * Response :=
  match process_request_try self message with
  | Ok out => out
  | Raise e => (self, RespError (StrOf e))
  end.

(** ** Notions of the specification *)

(** The two comma-separated numeric components of a coordinate text, when it
    has exactly two and both read as floats. *)
Definition two_floats (text : string) : option Coord :=
  match str_split "," text with
  | [a; b] =>
      match float_of_str (str_strip a), float_of_str (str_strip b) with
      | Some x, Some y => Some (x, y)
      | _, _ => None
      end
  | _ => None
  end.

(** The text after the first separator, up to a further separator if there
    is one. *)
Definition coordinate_text (after : string) : string :=
  match str_partition " at " after with
  | Some (text, _) => text
  | None => after
  end.

(** [parse_clue] as the specification words it: the type is the trimmed text
    before the separator, and the coordinate is read from the entire text
    after the separator. *)
Definition parse_clue_entire_text (desc : string) : string * Coord :=
  match str_partition " at " desc with
  | Some (before, after) =>
      (str_strip before,
       match two_floats after with
       | Some c => c
       | None => zero_coord
       end)
  | None => ("unknown", zero_coord)
  end.

(** The sign of a float that is not NaN. *)
Definition has_sign (s : bool) (x : spec_float) : Prop :=
  match x with
  | S754_zero b | S754_infinity b | S754_finite b _ _ => b = s
  | S754_nan => False
  end.

(** What a square, a sum of squares and its root are: NaN, or a number
    whose sign bit is clear. *)
Definition nonneg_or_nan (x : spec_float) : Prop :=
  x = S754_nan \/ has_sign false x.

(** A number that compares: not a NaN. *)
Definition num_ok (a : PyNum) : bool := negb (F64.is_nan (to_float a)).

(** Two items in descending order of their keys, and an item whose key
    compares. *)
Definition key_ge {A : Type} (key : A -> PyNum) (a b : A) : Prop :=
  py_ge (key a) (key b) = true.

Definition key_ok {A : Type} (key : A -> PyNum) (a : A) : Prop :=
  num_ok (key a) = true.

(** [score(A) >= score(B)] on two ranked records. *)
Definition score_ge (a b : RankedClue) : Prop :=
  py_ge (score a) (score b) = true.

(** The score the specification gives a clue of type [clue_type] at distance
    [distance] from the path: type points plus [max(0, 100 - distance)]. *)
Definition total_score (clue_type : string) (distance : F64.float) : PyNum :=
  py_add (PyInt (dict_get CLUE_TYPE_POINTS clue_type 5))
         (py_max (PyInt 0) (py_sub (PyInt 100) (PyFloat distance))).

(** Sample values: the floats [0.0], [1.0], [2.0], [45.2], [-121.3], [130.0]
    and [1e200], the path [[(0.0, 0.0)]] and an agent on that path. *)
Definition f0 : F64.float := S754_zero false.
Definition f1 : F64.float := Prim2SF 1%float.
Definition f2 : F64.float := Prim2SF 2%float.
Definition f45_2 : F64.float := Prim2SF 0x1.699999999999ap+5%float.
Definition fm121_3 : F64.float := Prim2SF (-0x1.e533333333333p+6)%float.
Definition f130 : F64.float := Prim2SF 130%float.
Definition f1e200 : F64.float := Prim2SF 0x1.4e718d7d7625ap+664%float.
Definition origin_path : list Coord := [(f0, f0)].
Definition agent_at_origin (clues : Clues) : ClueMeisterAgent :=
  {| kb := clues; path := origin_path; status := "initialized" |}.
Definition sample_clues : Clues :=
  [(1, "footprint at 1,1"); (2, "IR signature at 0,0");
   (3, "unknown thing at 1000,1000"); (4, "red hat at 3,4")]%Z.

(** The four requests, each a message with one key. *)
Definition request_get_clues : Msg.ClueMessage :=
  {| Msg.get_clues := Some true; Msg.get_status := None;
     Msg.update_path := None; Msg.rank_clues := None |}.

Definition request_get_status : Msg.ClueMessage :=
  {| Msg.get_clues := None; Msg.get_status := Some true;
     Msg.update_path := None; Msg.rank_clues := None |}.

Definition request_update_path (P : list Coord) : Msg.ClueMessage :=
  {| Msg.get_clues := None; Msg.get_status := None;
     Msg.update_path := Some P; Msg.rank_clues := None |}.

Definition request_rank_clues (b : bool) : Msg.ClueMessage :=
  {| Msg.get_clues := None; Msg.get_status := None;
     Msg.update_path := None; Msg.rank_clues := Some b |}.

(** The agent after a sequence of requests. *)
Definition run (self : ClueMeisterAgent) (messages : list Msg.ClueMessage)
  : ClueMeisterAgent :=
  fold_left (fun a m => fst (process_request a m)) messages self.

(** The message reaches the [update_path] branch: neither [get_clues] nor
    [get_status] is true in it, and it has the key. *)
Definition reaches_update_path (m : Msg.ClueMessage) : bool :=
  negb (truthy (Msg.get_clues m)) && negb (truthy (Msg.get_status m))
  && present (Msg.update_path m).

(** ** Notions for further properties of the ranking *)

(** [x] stands before [z] in a list. *)
Inductive Precedes {A : Type} (x z : A) : list A -> Prop :=
| Precedes_here (l : list A) : In z l -> Precedes x z (x :: l)
| Precedes_later (y : A) (l : list A) :
    Precedes x z l -> Precedes x z (y :: l).

(** A float that is a number: a zero or a finite value. *)
Definition is_finite (x : F64.float) : bool :=
  match x with
  | S754_zero _ | S754_finite _ _ _ => true
  | S754_infinity _ | S754_nan => false
  end.

Definition finite_coord (c : Coord) : bool :=
  is_finite (fst c) && is_finite (snd c).

(** The float [100.0]. *)
Definition f100 : F64.float := Prim2SF 100%float.

(** The record of a clue with its score. *)
Definition record_of (cid : Z) (desc : string) (s : PyNum) : RankedClue :=
  {| id := cid; description := desc; score := s |}.

(** A squared coordinate difference of the two points is out of range. *)
Definition overflows (p q : Coord) : Prop :=
  _euclidean_distance p q = Raise OverflowError.

(* ================================================================== *)
(** * The agent on the values a message can hold

    [ClueMessage] is a [TypedDict]: the interpreter does not check the
    types it declares. [process_request] stores [message["update_path"]] as
    it comes and tests the other keys for truth only. [Dyn] is the agent of
    [ClueMeisterRANK.py] on messages that hold any value of decoded JSON
    data under a key: [None], a bool, an int, a float, a string, a list (a
    tuple behaves as a list in all the agent does with it) or a dict with
    string keys. The agent above is this one on the messages that keep the
    declared types. *)

Module Dyn.

#[warnings="-register-all"]
Inductive PyVal : Set :=
| VNone
| VBool (b : bool)
| VInt (n : Z)
| VFloat (x : F64.float)
| VStr (s : string)
| VList (items : list PyVal)
| VDict (items : list (string * PyVal)).

(** [bool(v)], the test of [if v] and [if not v]. *)
Definition py_bool (v : PyVal) : bool :=
  match v with
  | VNone => false
  | VBool b => b
  | VInt n => negb (n =? 0)%Z
  | VFloat (S754_zero _) => false
  | VFloat _ => true
  | VStr EmptyString => false
  | VStr _ => true
  | VList [] => false
  | VList _ => true
  | VDict [] => false
  | VDict _ => true
  end.

(** [len(v)]: [None], a bool and a number have no length. *)
Definition py_len (v : PyVal) : result nat :=
  match v with
  | VStr s => Ok (String.length s)
  | VList items => Ok (List.length items)
  | VDict items => Ok (List.length items)
  | _ => Raise TypeError
  end.

(** The characters of a string, each a string. *)
Fixpoint chars (s : string) : list PyVal :=
  match s with
  | EmptyString => []
  | String c s' => VStr (String c EmptyString) :: chars s'
  end.

(** [for p in v]: the items of a list, the characters of a string, the
    keys of a dict; nothing else is iterable. *)
Definition py_iter (v : PyVal) : result (list PyVal) :=
  match v with
  | VStr s => Ok (chars s)
  | VList items => Ok items
  | VDict items => Ok (map (fun kv => VStr (fst kv)) items)
  | _ => Raise TypeError
  end.

(** [v[i]] for the index [i] (0 or 1): a list and a string are indexed, a
    dict with string keys has no key [i], nothing else is subscriptable. *)
Definition py_item (v : PyVal) (i : nat) : result PyVal :=
  match v with
  | VList items => py_index items i
  | VStr s =>
      match String.get i s with
      | Some c => Ok (VStr (String c EmptyString))
      | None => Raise IndexError
      end
  | VDict _ => Raise KeyError
  | _ => Raise TypeError
  end.

(** The float of an int operand: an int beyond the floats raises
    [OverflowError]. *)
Definition int_to_float (n : Z) : result F64.float :=
  match F64.of_int n with
  | S754_infinity _ => Raise OverflowError
  | x => Ok x
  end.

(** [x - v] for a float [x]: a float, an int or a bool is subtracted,
    anything else is a [TypeError]. *)
Definition float_minus (x : F64.float) (v : PyVal) : result F64.float :=
  match v with
  | VFloat y => Ok (F64.sub x y)
  | VInt n => y <- int_to_float n ;; Ok (F64.sub x y)
  | VBool b =>
      y <- int_to_float (if b then 1 else 0)%Z ;; Ok (F64.sub x y)
  | _ => Raise TypeError
  end.

Module Msg.
Record ClueMessage : Set := {
  get_clues : option PyVal;
  get_status : option PyVal;
  update_path : option PyVal;
  rank_clues : option PyVal
}.
End Msg.

(** [message.get(key)] tested for truth. *)
Definition get_truth (v : option PyVal) : bool :=
  match v with
  | Some x => py_bool x
  | None => false
  end.

Record ClueMeisterAgent : Set := {
  kb : Clues;
  path : PyVal;
  status : string
}.

(** [__init__] *)
Definition __init__ (kb0 : Clues) : ClueMeisterAgent :=
  {| kb := kb0; path := VList []; status := "initialized" |}.

(** [_euclidean_distance], its first argument the parsed coordinate: the
    left square is computed before the right one is begun. *)
Definition _euclidean_distance (p1 : Coord) (p2 : PyVal)
  : result F64.float :=
  a <- py_item p2 0 ;;
  dx <- float_minus (fst p1) a ;;
  dx2 <- float_pow2 dx ;;
  b <- py_item p2 1 ;;
  dy <- float_minus (snd p1) b ;;
  dy2 <- float_pow2 dy ;;
  math_sqrt (F64.add dx2 dy2).

(** [_min_distance_to_path] *)
Definition _min_distance_to_path (self : ClueMeisterAgent) (coord : Coord)
  : result F64.float :=
  ps <- py_iter (path self) ;;
  py_min (fun p => _euclidean_distance coord p) ps.

(** [rank_clues]: the body of the loop, the loop and the function. *)
Definition score_clue (self : ClueMeisterAgent) (desc : string)
  : result PyNum :=
  '(clue_type, coord) <- _parse_clue desc ;;
  unknown <- dict_getitem CLUE_TYPE_POINTS "unknown" ;;
  let score := dict_get CLUE_TYPE_POINTS clue_type unknown in
  distance <- _min_distance_to_path self coord ;;
  let proximity_score :=
    py_max (PyInt 0) (py_sub (PyInt 100) (PyFloat distance)) in
  let total_score := py_add (PyInt score) proximity_score in
  Ok total_score.

Fixpoint rank_loop (self : ClueMeisterAgent) (clues : Clues)
  : result (list (Z * string * PyNum)) :=
  match clues with
  | [] => Ok []
  | (cid, desc) :: clues' =>
      total_score <- score_clue self desc ;;
      ranked <- rank_loop self clues' ;;
      Ok ((cid, desc, total_score) :: ranked)
  end.

Definition rank_clues (self : ClueMeisterAgent) : result Response :=
  if negb (py_bool (path self))
  then Ok (RespError (Literal "Path is not set"))
  else
    let clues := kb self in
    ranked <- rank_loop self clues ;;
    let ranked := sort_reverse (fun x => snd x) ranked in
    Ok (RespRanked (map to_record ranked)).

Definition with_path (self : ClueMeisterAgent) (new_path : PyVal)
  : ClueMeisterAgent :=
  {| kb := kb self; path := new_path; status := status self |}.

(** [process_request]: the agent after the request and the response. The
    assignment [self.path = message["update_path"]] comes before
    [len(self.path)], so the path is replaced also when [len] raises and
    the response is the error. *)
Definition process_request (self : ClueMeisterAgent)
  (message : Msg.ClueMessage) : ClueMeisterAgent * Response :=
  if get_truth (Msg.get_clues message) then (self, RespClues (kb self))
  else if get_truth (Msg.get_status message)
  then (self, RespStatus (status self))
  else
    match Msg.update_path message with
    | Some new_path =>
        let self' := with_path self new_path in
        match py_len (path self') with
        | Ok n => (self', RespPathUpdated "path updated" n)
        | Raise e => (self', RespError (StrOf e))
        end
    | None =>
        if get_truth (Msg.rank_clues message) then
          match rank_clues self with
          | Ok r => (self, r)
          | Raise e => (self, RespError (StrOf e))
          end
        else (self, RespError (Literal "Unknown request type"))
    end.

End Dyn.

(** ** The typed agent inside the agent on all values *)

Definition of_coord (c : Coord) : Dyn.PyVal :=
  Dyn.VList [Dyn.VFloat (fst c); Dyn.VFloat (snd c)].

Definition of_path (p : list Coord) : Dyn.PyVal :=
  Dyn.VList (map of_coord p).

Definition of_agent (a : ClueMeisterAgent) : Dyn.ClueMeisterAgent :=
  {| Dyn.kb := kb a; Dyn.path := of_path (path a);
     Dyn.status := status a |}.

Definition of_message (m : Msg.ClueMessage) : Dyn.Msg.ClueMessage :=
  {| Dyn.Msg.get_clues := option_map Dyn.VBool (Msg.get_clues m);
     Dyn.Msg.get_status := option_map Dyn.VBool (Msg.get_status m);
     Dyn.Msg.update_path := option_map of_path (Msg.update_path m);
     Dyn.Msg.rank_clues := option_map Dyn.VBool (Msg.rank_clues m) |}.

(** The exceptions of a value that is not what the code takes it for. *)
Definition ill_typed (e : PyExc) : Prop :=
  e = TypeError \/ e = IndexError \/ e = KeyError.

(** Sample values: an agent with one clue on a given path, and a request
    to rank. *)
Definition agent_on (v : Dyn.PyVal) : Dyn.ClueMeisterAgent :=
  {| Dyn.kb := [(1%Z, "footprint at 1,1")]; Dyn.path := v;
     Dyn.status := "initialized" |}.

Definition dyn_request_rank_clues : Dyn.Msg.ClueMessage :=
  {| Dyn.Msg.get_clues := None; Dyn.Msg.get_status := None;
     Dyn.Msg.update_path := None;
     Dyn.Msg.rank_clues := Some (Dyn.VBool true) |}.

Definition dyn_request_update_path (v : Dyn.PyVal) : Dyn.Msg.ClueMessage :=
  {| Dyn.Msg.get_clues := None; Dyn.Msg.get_status := None;
     Dyn.Msg.update_path := Some v; Dyn.Msg.rank_clues := None |}.

(* ================================================================== *)
(** * More string operations, as [ClueMeisterAgentV2.py] uses them *)

(** A character at which [str.splitlines] breaks a line (ASCII): line feed,
    carriage return, vertical tab, form feed and the separators 0x1c-0x1e. *)
Definition is_linebreak (c : ascii) : bool :=
  let n := nat_of_ascii c in
  (((10 <=? n) && (n <=? 13)) || ((28 <=? n) && (n <=? 30)))%nat.

(** [s.splitlines()]: the lines without their ends; a carriage return
    followed by a line feed is one line end, and the end of the text adds
    no empty line. [cur] is the line being read, [started] tells whether
    it has begun. *)
Fixpoint splitlines_from (cur : string) (started : bool) (s : string)
  : list string :=
  match s with
  | EmptyString => if started then [cur] else []
  | String c s' =>
      if is_linebreak c then
        cur ::
        match s' with
        | String c' s'' =>
            if (nat_of_ascii c =? 13)%nat && (nat_of_ascii c' =? 10)%nat
            then splitlines_from EmptyString false s''
            else splitlines_from EmptyString false s'
        | EmptyString => []
        end
      else splitlines_from (cur ++ String c EmptyString) true s'
  end.

Definition str_splitlines (s : string) : list string :=
  splitlines_from EmptyString false s.

(** [s.startswith(p)] *)
Definition str_startswith (s p : string) : bool := prefix p s.

(** [s.replace(old, "")]: every occurrence of [old], found from the left
    and not overlapping, is taken out. *)
Definition str_remove (old s : string) : string :=
  String.concat EmptyString (str_split old s).

(** [x in xs] on a list of strings *)
Definition str_in (x : string) (xs : list string) : bool :=
  existsb (String.eqb x) xs.



(** [s.isdigit()] (ASCII): at least one character, all of them digits. *)
Fixpoint all_digits (s : string) : bool :=
  match s with
  | EmptyString => true
  | String c s' =>
      match digit_val c with
      | Some _ => all_digits s'
      | None => false
      end
  end.

Definition str_isdigit (s : string) : bool :=
  match s with
  | EmptyString => false
  | _ => all_digits s
  end.

(** The interpreter's limit on the digits of an int that is read from or
    written as decimal text ([sys.int_max_str_digits]), at its default. *)
Definition int_max_str_digits : Z := 4300.

(** [int(s)] in base ten: blanks around the number are dropped; an optional
    sign; digits, with single underscores allowed between them. More digits
    than the limit are a [ValueError] as well. *)
Definition py_int (s : string) : result Z :=
  let '(neg, body) := read_sign (num_strip s) in
  match digitpart 0 body with
  | Some (n, k, EmptyString) =>
      if (int_max_str_digits <? k)%Z then Raise ValueError
      else Ok (if neg then (- n)%Z else n)
  | _ => Raise ValueError
  end.

(** The longest run of digits at the start of a text, and the rest. *)
Fixpoint span_digits (s : string) : string * string :=
  match s with
  | EmptyString => (EmptyString, EmptyString)
  | String c s' =>
      match digit_val c with
      | Some _ => let '(ds, r) := span_digits s' in (String c ds, r)
      | None => (EmptyString, s)
      end
  end.

(** The text before the first occurrence of a character, and the text
    after it. *)
Fixpoint break_at (c : ascii) (s : string) : option (string * string) :=
  match s with
  | EmptyString => None
  | String x s' =>
      if Ascii.eqb x c then Some (EmptyString, s')
      else match break_at c s' with
           | Some (a, b) => Some (String x a, b)
           | None => None
           end
  end.

(** [re.match(r"Cluster (\d+): \[(.*?)\]", line)] on one line of
    [splitlines]: the two groups. The digits are the longest run (a shorter
    run would be followed by a digit, not by the colon), and the lazy group
    ends at the first closing bracket. *)
Definition match_cluster (line : string) : option (string * string) :=
  if prefix "Cluster " line then
    let '(ds, r) := span_digits (str_drop 8 line) in
    match ds with
    | EmptyString => None
    | _ =>
        if prefix ": [" r then
          match break_at "]" (str_drop 3 r) with
          | Some (g2, _) => Some (ds, g2)
          | None => None
          end
        else None
    end
  else None.

(** [re.findall(r'!(\d+)!', s)]: the digit groups of the matches, found from
    the left and not overlapping. [skip] counts the characters of a match
    that are still to be passed over. *)
Fixpoint findall_from (skip : nat) (s : string) : list string :=
  match s with
  | EmptyString => []
  | String c s' =>
      match skip with
      | S k => findall_from k s'
      | O =>
          if Ascii.eqb c "!" then
            let '(ds, r) := span_digits s' in
            match ds, r with
            | String _ _, String c' _ =>
                if Ascii.eqb c' "!"
                then ds :: findall_from (String.length ds + 1) s'
                else findall_from 0 s'
            | _, _ => findall_from 0 s'
            end
          else findall_from 0 s'
      end
  end.

Definition findall_flags (s : string) : list string := findall_from 0 s.

(** The decimal digits of an int. *)
Definition digit_char (d : Z) : ascii := ascii_of_nat (48 + Z.to_nat d).

Fixpoint digits_of_pos (fuel : nat) (n : Z) (acc : string) : string :=
  match fuel with
  | O => acc
  | S fuel' =>
      let acc' := String (digit_char (n mod 10)) acc in
      if (n <? 10)%Z then acc' else digits_of_pos fuel' (n / 10) acc'
  end.

Definition str_of_int (n : Z) : string :=
  if (n <? 0)%Z
  then String "-"
         (digits_of_pos (S (Z.to_nat (Z.log2 (- n)))) (- n) EmptyString)
  else digits_of_pos (S (Z.to_nat (Z.log2 n))) n EmptyString.

(** [str(n)] for an int, also inside an f-string: an int with more digits
    than the limit raises [ValueError]. *)
Definition py_str (n : Z) : result string :=
  if (10 ^ int_max_str_digits <=? Z.abs n)%Z then Raise ValueError
  else Ok (str_of_int n).

(* ================================================================== *)
(** * ClueMeisterAgentV2: the agent of [src/ClueMeisterAgentV2.py]

    The agent calls collaborators that the repository does not hold: the
    knowledge base, the photo agent, the drone infrared service and the
    language model. They are parameters here. The knowledge base is a store
    with the operations the agent calls on it; the photo agent and the
    drone service are the predicates the agent asks. The reply of the
    language model is an input of every function that asks for one (the
    prompt the agent sends and the pause before each call are not part of
    the model). Exceptions of the collaborators are not modelled. *)

Module V2.

(** A clue object as [_apply_rules] uses it: [clue.coordinates] and the int
    [clue.priority]. *)
Record Clue (C : Type) : Type := {
  coordinates : C;
  priority : Z
}.

Arguments coordinates {C} c.
Arguments priority {C} c.

Record Collaborators : Type := {
  KB : Type;
  Coordinates : Type;
  kb_get_clues : KB -> Clues;                       (* kb.get_clues() *)
  kb_clue_tags : KB -> list (string * list Z);      (* kb.clue_tags *)
  kb_add_clue_tag : Z -> string -> KB -> KB;        (* kb.add_clue_tag *)
  kb_add_query : string -> KB -> KB;                (* kb.add_query *)
  kb_add_clue : string -> KB -> KB;                 (* kb.add_clue *)
  kb_is_within_grid : KB -> Coordinates -> bool;
  kb_interview_supports_path : KB -> Clue Coordinates -> bool;
  photo_path_intersects : Coordinates -> bool;      (* photo_agent *)
  drone_overlaps : Coordinates -> bool              (* drone_ir *)
}.

(** ** ClueMessage: a [TypedDict] with [total=False] *)
Module Msg.
Record ClueMessage : Set := {
  flag_clue : option Z;
  get_clues : option bool;
  get_status : option bool;
  ask_human_query : option string;
  cluster_clues : option bool;
  get_clusters : option bool
}.
End Msg.

(** [message.get(key)] tested for truth, for a string: an absent key and an
    empty string are false. *)
Definition truthy_str (v : option string) : bool :=
  match v with
  | Some EmptyString | None => false
  | Some (String _ _) => true
  end.

(** [self.clusters]: a [dict[int, list[int]]], in insertion order. *)
Definition Clusters : Set := list (Z * list Z).

Inductive Response : Set :=
| RespClueId (clue_id : Z)
    (* {"clue_id": cid} *)
| RespClueText (clue_text : string)
    (* {"clue_text": text} *)
| RespStatus (s : string)
    (* {"status": s} *)
| RespResponse (response : string)
    (* {"response": "Added Query"} *)
| RespClusters (clusters : Clusters)
    (* {"clusters": clusters} *)
| RespFound (clues : list string)
    (* {"clues": clues_found} *)
| RespInfo (info : string)
    (* {"info": text} *)
| RespUpdated (s : string) (new_status : string)
    (* {"status": "updated", "new_status": status} *)
| RespError (msg : ErrorText).
    (* {"error": msg} *)

(** [d[key] = value] on a dict: a key that is there keeps its place. *)
Fixpoint dict_setitem {V : Type} (d : list (Z * V)) (key : Z) (value : V)
  : list (Z * V) :=
  match d with
  | [] => [(key, value)]
  | (k, v) :: d' =>
      if (k =? key)%Z then (key, value) :: d'
      else (k, v) :: dict_setitem d' key value
  end.

(** [d.get(key, [])] on [kb.clue_tags] *)
Fixpoint tags_get (d : list (string * list Z)) (key : string) : list Z :=
  match d with
  | [] => []
  | (k, v) :: d' => if String.eqb k key then v else tags_get d' key
  end.

Definition newline : string := String (ascii_of_nat 10) EmptyString.

Section Agent.
Context (E : Collaborators).

(** The agent's attributes; the photo agent, the drone service and the
    model are fixed by [E]. *)
Record ClueMeisterAgent : Type := {
  kb : KB E;
  status : string;
  clusters : Clusters
}.

(** [__init__] *)
Definition __init__ (kb0 : KB E) : ClueMeisterAgent :=
  {| kb := kb0; status := "initialized"; clusters := [] |}.

Definition with_kb (self : ClueMeisterAgent) (k : KB E) : ClueMeisterAgent :=
  {| kb := k; status := status self; clusters := clusters self |}.

(** [update_status] *)
Definition update_status (self : ClueMeisterAgent) (s : string)
  : ClueMeisterAgent * Response :=
  ({| kb := kb self; status := s; clusters := clusters self |},
   RespUpdated "updated" s).

(** [get_status]: the attribute is always there, so the default
    ['unknown'] of [getattr] is never used. *)
Definition get_status (self : ClueMeisterAgent) : string := status self.

(** [get_clusters] *)
Definition get_clusters (self : ClueMeisterAgent) : Response :=
  RespClusters (clusters self).

(** [clues_to_text]: the line of one clue, and the loop over the clues. *)
Definition clue_line (flagged : list Z) (item : Z * string) : result string :=
  let '(cid, txt) := item in
  let tag := if existsb (Z.eqb cid) flagged
             then " (Already Flagged)" else "" in
  n <- py_str cid ;;
  Ok ("Clue ID #" ++ n ++ ": " ++ txt ++ tag ++ newline).

Fixpoint clue_lines (flagged : list Z) (clues : Clues) (text : string)
  : result string :=
  match clues with
  | [] => Ok text
  | item :: rest =>
      l <- clue_line flagged item ;;
      clue_lines flagged rest (text ++ l)
  end.

Definition clues_to_text (self : ClueMeisterAgent) : result Response :=
  let clues := kb_get_clues E (kb self) in
  let flagged := tags_get (kb_clue_tags E (kb self)) "ai_flagged" in
  text <- clue_lines flagged clues ("Clues:" ++ newline) ;;
  Ok (RespClueText text).

(** [cluster_clues]: the ids of one cluster line,
    [[int(i) for i in group.split(',') if i.strip().isdigit()]]. *)
Fixpoint cluster_ids (items : list string) : result (list Z) :=
  match items with
  | [] => Ok []
  | i :: rest =>
      if str_isdigit (str_strip i)
      then (n <- py_int i ;; ns <- cluster_ids rest ;; Ok (n :: ns))
      else cluster_ids rest
  end.

(** The loop over the lines of the reply. *)
Fixpoint cluster_lines (lines : list string) (acc : Clusters)
  : result Clusters :=
  match lines with
  | [] => Ok acc
  | line :: rest =>
      match match_cluster line with
      | Some (g1, g2) =>
          cid <- py_int g1 ;;
          ids <- cluster_ids (str_split "," g2) ;;
          cluster_lines rest (dict_setitem acc cid ids)
      | None => cluster_lines rest acc
      end
  end.

(** The lines of the block of the prompt, [f"{cid}: {txt}"] for each
    clue. *)
Fixpoint block_lines (clues : Clues) : result (list string) :=
  match clues with
  | [] => Ok []
  | (cid, txt) :: rest =>
      n <- py_str cid ;;
      ls <- block_lines rest ;;
      Ok ((n ++ ": " ++ txt) :: ls)
  end.

Definition cluster_clues (reply : string) (self : ClueMeisterAgent)
  : result (ClueMeisterAgent * Response) :=
  _ <- block_lines (kb_get_clues E (kb self)) ;;
  found <- cluster_lines (str_splitlines reply) [] ;;
  Ok ({| kb := kb self; status := status self; clusters := found |},
      RespClusters found).

(** [flag_clues]: the loop over the matches. The reply is what the model
    answers to the prompt with the clue block; building the block can
    raise, before the model is asked. When [int] raises, the tags added
    before are left in the knowledge base; that store is not returned
    here. A length is far below the limit of [str]. *)
Fixpoint flag_matches (matches : list string) (k : KB E) : result (KB E) :=
  match matches with
  | [] => Ok k
  | mid :: rest =>
      n <- py_int mid ;;
      flag_matches rest (kb_add_clue_tag E n "ai_flagged" k)
  end.

Definition flag_clues (reply : string) (self : ClueMeisterAgent)
  : result (ClueMeisterAgent * Response) :=
  _ <- clues_to_text self ;;
  let matches := findall_flags reply in
  k <- flag_matches matches (kb self) ;;
  Ok (with_kb self k,
      RespInfo ("Flagged " ++ str_of_int (Z.of_nat (List.length matches))
                ++ " clues")).

(** [extract_clue]: the inner loop over the lines of one reply. *)
Definition extract_line (clues_found : list string) (line : string)
  : list string :=
  if str_startswith line "Clue:" then
    let txt := str_strip (str_remove "Clue:" line) in
    match txt with
    | EmptyString => clues_found
    | _ => if str_in txt clues_found then clues_found
           else clues_found ++ [txt]
    end
  else clues_found.

Definition extract_reply (clues_found : list string) (reply : string)
  : list string :=
  fold_left extract_line (str_splitlines reply) clues_found.

(** The [while True] loop over the successive replies of the model: it ends
    at the first reply without ['Clue:']. [None]: the replies given are all
    used up and the loop is still asking. *)
Fixpoint extract_loop (replies : list string) (clues_found : list string)
  : option (list string) :=
  match replies with
  | [] => None
  | reply :: rest =>
      if negb (str_contains "Clue:" reply) then Some clues_found
      else extract_loop rest (extract_reply clues_found reply)
  end.

Definition extract_clue (replies : list string) (self : ClueMeisterAgent)
  : option (ClueMeisterAgent * Response) :=
  match extract_loop replies [] with
  | Some clues_found =>
      Some (with_kb self
              (fold_left (fun k clue => kb_add_clue E clue k)
                         clues_found (kb self)),
            RespFound clues_found)
  | None => None
  end.

(** [_apply_rules]: the clue object after the call, and the value
    returned. *)
Definition boost (b : bool) (n : Z) (clue : Clue (Coordinates E))
  : Clue (Coordinates E) :=
  if b then {| coordinates := coordinates clue;
               priority := priority clue + n |}
  else clue.

Definition _apply_rules (self : ClueMeisterAgent) (clue : Clue (Coordinates E))
  : Clue (Coordinates E) * bool :=
  if negb (kb_is_within_grid E (kb self) (coordinates clue))
  then (clue, false)
  else
    let clue1 := boost (photo_path_intersects E (coordinates clue)) 10 clue in
    let clue2 := boost (drone_overlaps E (coordinates clue1)) 20 clue1 in
    let clue3 := boost (kb_interview_supports_path E (kb self) clue2) 5 clue2 in
    (clue3, true).

(** [process_request]; [reply] is what the model answers if it is asked. *)
Definition process_request_try (reply : string) (self : ClueMeisterAgent)
  (message : Msg.ClueMessage) : result (ClueMeisterAgent * Response) :=
  if present (Msg.flag_clue message) then
    cid <- msg_getitem (Msg.flag_clue message) ;;
    Ok (with_kb self (kb_add_clue_tag E cid "ai_flagged" (kb self)),
        RespClueId cid)
  else if truthy (Msg.get_clues message) then
    r <- clues_to_text self ;;
    Ok (self, r)
  else if truthy (Msg.get_status message) then
    Ok (self, RespStatus (get_status self))
  else if truthy_str (Msg.ask_human_query message) then
    q <- msg_getitem (Msg.ask_human_query message) ;;
    Ok (with_kb self (kb_add_query E q (kb self)),
        RespResponse "Added Query")
  else if truthy (Msg.cluster_clues message) then
    cluster_clues reply self
  else if truthy (Msg.get_clusters message) then
    Ok (self, get_clusters self)
  else Ok (self, RespError (Literal "Unknown request type")).

Definition process_request (reply : string) (self : ClueMeisterAgent)
  (message : Msg.ClueMessage) : ClueMeisterAgent * Response :=
  match process_request_try reply self message with
  | Ok out => out
  | Raise e => (self, RespError (StrOf e))
  end.

End Agent.

Arguments kb {E} c.
Arguments status {E} c.
Arguments clusters {E} c.

End V2.

(** ** Notions for the properties of ClueMeisterAgentV2 *)

(** The clues [extract_clue] keeps: no clue twice, none empty, none with
    blanks at its ends. *)
Definition clean_clues (found : list string) : Prop :=
  NoDup found /\
  Forall (fun c => c <> EmptyString /\ str_strip c = c) found.

(** A clue that was read from a line of a reply. *)
Definition read_from (replies : list string) (c : string) : Prop :=
  exists reply line,
    In reply replies /\ In line (str_splitlines reply) /\
    str_startswith line "Clue:" = true /\
    c = str_strip (str_remove "Clue:" line).

(** Clusters with one entry for a cluster number, and no negative number
    among the cluster numbers and the clue ids. *)
Definition good_clusters (cl : V2.Clusters) : Prop :=
  NoDup (map fst cl) /\
  Forall (fun kv => (0 <= fst kv)%Z /\ Forall (Z.le 0) (snd kv)) cl.

(** The requests of the V2 agent with one key. *)
Definition v2_message (flag : option Z) (clues status : option bool)
  (query : option string) (cluster get : option bool) : V2.Msg.ClueMessage :=
  {| V2.Msg.flag_clue := flag; V2.Msg.get_clues := clues;
     V2.Msg.get_status := status; V2.Msg.ask_human_query := query;
     V2.Msg.cluster_clues := cluster; V2.Msg.get_clusters := get |}.

Definition v2_request_cluster_clues : V2.Msg.ClueMessage :=
  v2_message None None None None (Some true) None.

Definition v2_request_get_clusters : V2.Msg.ClueMessage :=
  v2_message None None None None None (Some true).

(** The tags the loop of [flag_clues] adds, for the ids [ids]. *)
Definition add_flags (E : V2.Collaborators) (ids : list Z) (k : V2.KB E)
  : V2.KB E :=
  fold_left (fun k n => V2.kb_add_clue_tag E n "ai_flagged" k) ids k.

(** Clue ids that [str] writes: their digits are within the limit. *)
Definition printable_ids (clues : Clues) : Prop :=
  Forall (fun c => (Z.abs (fst c) < 10 ^ int_max_str_digits)%Z) clues.

(** A text that is not longer than the limit on the digits of an int, so
    that no number in it is. *)
Definition short (s : string) : Prop :=
  (Z.of_nat (String.length s) <= int_max_str_digits)%Z.




(** A cluster number that was read from a line of the reply. *)
Definition cluster_of_line (reply : string) (cid : Z) : Prop :=
  exists line g1 g2,
    In line (str_splitlines reply) /\
    match_cluster line = Some (g1, g2) /\ py_int g1 = Ok cid.

(** The message reaches the test of [ask_human_query], and passes it. *)
Definition query_reached (message : V2.Msg.ClueMessage) : bool :=
  negb (present (V2.Msg.flag_clue message)) &&
  negb (truthy (V2.Msg.get_clues message)) &&
  negb (truthy (V2.Msg.get_status message)) &&
  V2.truthy_str (V2.Msg.ask_human_query message).

(** The message reaches the test of [cluster_clues], and passes it. *)
Definition cluster_reached (message : V2.Msg.ClueMessage) : bool :=
  negb (present (V2.Msg.flag_clue message)) &&
  negb (truthy (V2.Msg.get_clues message)) &&
  negb (truthy (V2.Msg.get_status message)) &&
  negb (V2.truthy_str (V2.Msg.ask_human_query message)) &&
  truthy (V2.Msg.cluster_clues message).

(** A knowledge base for the examples: the clues, the tags and the queries
    in lists; every coordinate is inside the grid, and the other services
    answer by the sign of the first coordinate. *)
Record SampleKB : Set := {
  sk_clues : Clues;
  sk_tags : list (string * list Z);
  sk_queries : list string
}.

Definition sample_collaborators : V2.Collaborators := {|
  V2.KB := SampleKB;
  V2.Coordinates := Z * Z;
  V2.kb_get_clues := sk_clues;
  V2.kb_clue_tags := sk_tags;
  V2.kb_add_clue_tag := fun n t k =>
    {| sk_clues := sk_clues k;
       sk_tags := (t, (V2.tags_get (sk_tags k) t ++ [n])%list) :: sk_tags k;
       sk_queries := sk_queries k |};
  V2.kb_add_query := fun q k =>
    {| sk_clues := sk_clues k; sk_tags := sk_tags k;
       sk_queries := (sk_queries k ++ [q])%list |};
  V2.kb_add_clue := fun c k =>
    {| sk_clues :=
         (sk_clues k ++ [(Z.of_nat (List.length (sk_clues k)), c)])%list;
       sk_tags := sk_tags k; sk_queries := sk_queries k |};
  V2.kb_is_within_grid := fun _ _ => true;
  V2.kb_interview_supports_path := fun _ c => (0 <=? fst (V2.coordinates c))%Z;
  V2.photo_path_intersects := fun c => (0 <=? fst c)%Z;
  V2.drone_overlaps := fun c => (fst c <? 0)%Z
|}.

Definition sample_agent : V2.ClueMeisterAgent sample_collaborators :=
  V2.__init__ sample_collaborators
    {| sk_clues := [(1%Z, "red hat at 1,2"); (2%Z, "footprint at 3,4")];
       sk_tags := []; sk_queries := [] |}.

Definition sample_extract_replies : list string :=
  ["Clue: red hat" ++ V2.newline ++ "Clue:  boot print " ++ V2.newline
     ++ "a note";
   "Clue: red hat" ++ V2.newline ++ "Clue: tent";
   "No New Clues"].

Definition sample_cluster_reply : string :=
  "Here are the clusters" ++ V2.newline
  ++ "Cluster 1: [1, 2,x]" ++ V2.newline ++ "Cluster 2: [3]" ++ V2.newline
  ++ "Cluster 1: [5]".

Definition sample_flag_reply : string := "Related: !1! and !2!, not !x!".

Definition sample_found : list string := ["red hat"; "boot print"; "tent"].

Definition sample_clusters : V2.Clusters :=
  [(1%Z, [5%Z]); (2%Z, [3%Z])].

Definition with_clusters {E : V2.Collaborators}
  (self : V2.ClueMeisterAgent E) (cl : V2.Clusters) : V2.ClueMeisterAgent E :=
  {| V2.kb := V2.kb self; V2.status := V2.status self; V2.clusters := cl |}.

(* ================================================================== *)
(** * Properties of the string operations *)

Section StringFacts.
Local Open Scope string_scope.

Lemma append_empty_r (s : string) : s ++ "" = s.
Proof. induction s as [|c s IH]; simpl; [reflexivity | now rewrite IH]. Qed.

Lemma append_assoc (a b c : string) : (a ++ b) ++ c = a ++ (b ++ c).
Proof. induction a as [|x a IH]; simpl; [reflexivity | now rewrite IH]. Qed.

Lemma split_from_String (sep : string) (k : nat) (cur : string)
  (c : ascii) (s : string) :
  split_from sep k cur (String c s)
  = match k with
    | S k' => split_from sep k' cur s
    | O =>
        if prefix sep (String c s)
        then cur :: split_from sep (String.length sep - 1) "" s
        else split_from sep 0 (cur ++ String c "") s
    end.
Proof. reflexivity. Qed.

Lemma str_partition_String (sep : string) (c : ascii) (s : string) :
  str_partition sep (String c s)
  = if prefix sep (String c s)
    then Some ("", str_drop (String.length sep) (String c s))
    else match str_partition sep s with
         | Some (a, b) => Some (String c a, b)
         | None => None
         end.
Proof. reflexivity. Qed.

Lemma str_partition_empty (sep : string) :
  str_partition sep ""
  = if prefix sep "" then Some ("", str_drop (String.length sep) "")
    else None.
Proof. reflexivity. Qed.

(** Passing over [k] matched characters is dropping them. *)
Lemma split_from_skip (sep : string) (s : string) :
  forall (k : nat) (cur : string),
    split_from sep k cur s = split_from sep 0 cur (str_drop k s).
Proof.
  induction s as [|c s IH]; intros k cur.
  - destruct k; reflexivity.
  - destruct k as [|k]; [reflexivity|].
    rewrite split_from_String. simpl str_drop. apply IH.
Qed.

(** [split] never gives an empty list. *)
Lemma split_from_cons (sep : string) (s : string) :
  forall (k : nat) (cur : string),
    exists p ps, split_from sep k cur s = p :: ps.
Proof.
  induction s as [|c s IH]; intros k cur.
  - now exists cur, [].
  - rewrite split_from_String.
    destruct k as [|k]; [|apply IH].
    destruct (prefix sep (String c s)); [|apply IH].
    now exists cur, (split_from sep (String.length sep - 1) "" s).
Qed.

Lemma prefix_empty_r (sep : string) : sep <> "" -> prefix sep "" = false.
Proof. destruct sep; [congruence | reflexivity]. Qed.

(** Without an occurrence of the separator there is one piece: the text. *)
Lemma split_from_absent (sep : string) (Hsep : sep <> "") (s : string) :
  forall cur : string,
    str_partition sep s = None -> split_from sep 0 cur s = [cur ++ s].
Proof.
  induction s as [|c s IH]; intros cur Hp.
  - simpl. now rewrite append_empty_r.
  - rewrite str_partition_String in Hp. rewrite split_from_String.
    destruct (prefix sep (String c s)) eqn:Hpre; [discriminate|].
    destruct (str_partition sep s) as [[a b]|] eqn:Hs; [discriminate|].
    rewrite IH by reflexivity.
    now rewrite append_assoc.
Qed.

(** At the first occurrence of the separator the text before it is the
    first piece, and the remaining pieces are those of the text after. *)
Lemma split_from_present (sep : string) (Hsep : sep <> "") (s : string) :
  forall (cur a b : string),
    str_partition sep s = Some (a, b) ->
    split_from sep 0 cur s = (cur ++ a) :: split_from sep 0 "" b.
Proof.
  induction s as [|c s IH]; intros cur a b Hp.
  - rewrite str_partition_empty, (prefix_empty_r sep Hsep) in Hp.
    discriminate.
  - rewrite str_partition_String in Hp. rewrite split_from_String.
    destruct (prefix sep (String c s)) eqn:Hpre.
    + inversion Hp; subst a b; clear Hp.
      rewrite append_empty_r, split_from_skip. f_equal. f_equal.
      destruct sep as [|x sep]; [congruence|].
      simpl. now rewrite Nat.sub_0_r.
    + destruct (str_partition sep s) as [[a' b']|] eqn:Hs; [|discriminate].
      inversion Hp; subst a b; clear Hp.
      rewrite (IH _ a' b') by reflexivity.
      now rewrite append_assoc.
Qed.

Lemma str_split_absent (sep s : string) :
  sep <> "" -> str_partition sep s = None -> str_split sep s = [s].
Proof. intros Hsep Hp. unfold str_split. now rewrite split_from_absent. Qed.

Lemma str_split_present (sep s a b : string) :
  sep <> "" -> str_partition sep s = Some (a, b) ->
  str_split sep s = a :: str_split sep b.
Proof.
  intros Hsep Hp. unfold str_split.
  now rewrite (split_from_present sep Hsep s "" a b Hp).
Qed.

(** The second piece of a split is the text after the first separator up
    to the next one. *)
Lemma str_split_second (sep s a b : string) :
  sep <> "" -> str_partition sep s = Some (a, b) ->
  exists rest,
    str_split sep s
    = a :: match str_partition sep b with
           | Some (text, _) => text
           | None => b
           end :: rest.
Proof.
  intros Hsep Hp. rewrite (str_split_present sep s a b Hsep Hp).
  destruct (str_partition sep b) as [[text b']|] eqn:Hb.
  - rewrite (str_split_present sep b text b' Hsep Hb). now eexists.
  - rewrite (str_split_absent sep b Hsep Hb). now eexists.
Qed.

(** [str_partition] finds an occurrence: the text is what stands before,
    the separator, and what stands after. *)
Lemma prefix_drop (sep s : string) :
  prefix sep s = true -> s = sep ++ str_drop (String.length sep) s.
Proof.
  revert s. induction sep as [|x sep IH]; intros s H; [reflexivity|].
  destruct s as [|c s]; [discriminate|].
  simpl in H. destruct (ascii_dec x c) as [->|]; [|discriminate].
  simpl. f_equal. now apply IH.
Qed.

Lemma str_partition_sound (sep s a b : string) :
  str_partition sep s = Some (a, b) -> s = a ++ sep ++ b.
Proof.
  revert a b. induction s as [|c s IH]; intros a b Hp.
  - rewrite str_partition_empty in Hp.
    destruct (prefix sep "") eqn:Hpre; [|discriminate].
    inversion Hp; subst. now apply prefix_drop.
  - rewrite str_partition_String in Hp.
    destruct (prefix sep (String c s)) eqn:Hpre.
    + inversion Hp; subst. now apply prefix_drop.
    + destruct (str_partition sep s) as [[a' b']|]; [|discriminate].
      inversion Hp; subst. simpl. f_equal. now apply IH.
Qed.

Lemma prefix_append (sep b : string) : prefix sep (sep ++ b) = true.
Proof.
  induction sep as [|x sep IH]; simpl; [now destruct b|].
  destruct (ascii_dec x x); [assumption | congruence].
Qed.

Lemma str_partition_prefix (sep s : string) :
  prefix sep s = true ->
  str_partition sep s = Some ("", str_drop (String.length sep) s).
Proof.
  intros H. destruct s as [|c s].
  - now rewrite str_partition_empty, H.
  - now rewrite str_partition_String, H.
Qed.

(** And it finds one whenever there is one. *)
Lemma str_partition_complete (sep a b : string) :
  str_partition sep (a ++ sep ++ b) <> None.
Proof.
  induction a as [|c a IH]; simpl append.
  - rewrite (str_partition_prefix sep (sep ++ b) (prefix_append sep b)).
    discriminate.
  - rewrite str_partition_String.
    destruct (prefix sep (String c (a ++ sep ++ b))); [discriminate|].
    destruct (str_partition sep (a ++ sep ++ b)) as [[a' b']|];
      [discriminate | contradiction].
Qed.

(** [sep in s] holds exactly when the text contains the separator. *)
Lemma str_contains_iff (sep s : string) :
  str_contains sep s = true <-> exists a b, s = a ++ sep ++ b.
Proof.
  unfold str_contains. split.
  - destruct (str_partition sep s) as [[a b]|] eqn:Hp; [|discriminate].
    intros _. exists a, b. now apply str_partition_sound.
  - intros (a & b & ->).
    pose proof (str_partition_complete sep a b) as H.
    now destruct (str_partition sep (a ++ sep ++ b)).
Qed.
End StringFacts.

(* ================================================================== *)
(** * [_parse_clue] *)

Section ParseClue.
Local Open Scope string_scope.

Lemma separator_nonempty : " at " <> "".
Proof. discriminate. Qed.

(** No separator: the type is ["unknown"] and [parts[1]] raises the
    [IndexError] that the handler turns into the default coordinate. *)
Lemma parse_clue_absent (desc : string) :
  str_partition " at " desc = None ->
  _parse_clue desc = Ok ("unknown", zero_coord).
Proof.
  intros Hp. unfold _parse_clue.
  rewrite (str_split_absent " at " desc separator_nonempty Hp).
  reflexivity.
Qed.

(** With a separator the type is the trimmed first piece, and the
    coordinate is read from the second piece alone. *)
Lemma parse_clue_present (desc before after : string) :
  str_partition " at " desc = Some (before, after) ->
  _parse_clue desc
  = Ok (str_strip before,
        match two_floats (coordinate_text after) with
        | Some c => c
        | None => zero_coord
        end).
Proof.
  intros Hp.
  destruct (str_split_second " at " desc before after separator_nonempty Hp)
    as [rest Hsplit].
  unfold _parse_clue. rewrite Hsplit.
  unfold coordinate_text, two_floats.
  set (text := match str_partition " at " after with
               | Some (t, _) => t
               | None => after
               end).
  cbn [List.length Nat.ltb Nat.leb py_index nth_error bind try_except].
  destruct (str_split "," text) as [|a [|b [|c l]]]; try reflexivity.
  unfold py_float.
  destruct (float_of_str (str_strip a)); [|reflexivity].
  destruct (float_of_str (str_strip b)); reflexivity.
Qed.
End ParseClue.

(* ================================================================== *)
(** * Properties of binary64 arithmetic and of comparisons *)

Section FloatFacts.
Local Open Scope Z_scope.
Variables prec emax : Z.

Lemma shr_1_nonneg (mrs : shr_record) :
  0 <= shr_m mrs -> 0 <= shr_m (shr_1 mrs).
Proof.
  destruct mrs as [m r s]; simpl.
  destruct m as [|p|p]; [easy | | lia].
  intros _. destruct p; simpl; lia.
Qed.

Lemma iter_shr_1_nonneg (n : positive) :
  forall mrs, 0 <= shr_m mrs -> 0 <= shr_m (iter_pos shr_1 n mrs).
Proof.
  induction n as [n IH|n IH|]; intros mrs H; simpl.
  - apply IH, IH, shr_1_nonneg, H.
  - apply IH, IH, H.
  - apply shr_1_nonneg, H.
Qed.

Lemma shr_nonneg (mrs : shr_record) (e n : Z) :
  0 <= shr_m mrs -> 0 <= shr_m (fst (shr mrs e n)).
Proof.
  intros H. unfold shr. destruct n; simpl; auto using iter_shr_1_nonneg.
Qed.

Lemma shr_fexp_nonneg (m e : Z) (l : location) :
  0 <= m -> 0 <= shr_m (fst (shr_fexp prec emax m e l)).
Proof.
  intros H. unfold shr_fexp. apply shr_nonneg.
  destruct l as [|[]]; exact H.
Qed.

Lemma round_nearest_even_nonneg (m : Z) (l : location) :
  0 <= m -> 0 <= round_nearest_even m l.
Proof.
  intros H. unfold round_nearest_even.
  destruct l as [|[]]; try destruct (Z.even m); lia.
Qed.

(** Rounding a non-negative mantissa gives a number of the given sign. *)
Lemma binary_round_aux_sign (sx : bool) (mx ex : Z) (lx : location) :
  0 <= mx -> has_sign sx (binary_round_aux prec emax sx mx ex lx).
Proof.
  intros H. unfold binary_round_aux.
  pose proof (shr_fexp_nonneg mx ex lx H) as H1.
  destruct (shr_fexp prec emax mx ex lx) as [mrs' e']. simpl in H1.
  pose proof (shr_fexp_nonneg _ e' loc_Exact
                (round_nearest_even_nonneg _ (loc_of_shr_record mrs') H1))
    as H2.
  destruct (shr_fexp prec emax _ e' loc_Exact) as [mrs'' e'']. simpl in H2.
  destruct (shr_m mrs''); [reflexivity | | lia].
  destruct (e'' <=? emax - prec)%Z; reflexivity.
Qed.

Lemma binary_round_sign (sx : bool) (mx : positive) (ex : Z) :
  has_sign sx (binary_round prec emax sx mx ex).
Proof.
  unfold binary_round. destruct (shl_align mx ex _) as [mz ez].
  now apply binary_round_aux_sign.
Qed.

Lemma has_sign_not_nan (s : bool) (x : spec_float) :
  has_sign s x -> x <> S754_nan.
Proof. destruct x; simpl; congruence. Qed.

Lemma binary_normalize_not_nan (m e : Z) (szero : bool) :
  binary_normalize prec emax m e szero <> S754_nan.
Proof.
  destruct m; simpl; [discriminate | |];
    eapply has_sign_not_nan, binary_round_sign.
Qed.

(** A finite positive number plus a number above zero is not NaN. *)
Lemma add_positive_not_nan (m : positive) (e : Z) (p : spec_float) :
  SFltb (S754_zero false) p = true ->
  SFadd prec emax (S754_finite false m e) p <> S754_nan.
Proof.
  destruct p as [sp|sp| |sp mp ep]; simpl; try discriminate.
  intros _. apply binary_normalize_not_nan.
Qed.
End FloatFacts.

Section CompareFacts.
Local Open Scope Z_scope.

Lemma SFcompare_antisym (x y : spec_float) :
  SFcompare y x = option_map CompOpp (SFcompare x y).
Proof.
  destruct x as [sx|sx| |sx mx ex], y as [sy|sy| |sy my ey]; simpl;
    try reflexivity;
    try (destruct sx; reflexivity);
    try (destruct sy; reflexivity);
    try (destruct sx, sy; reflexivity).
  destruct sx, sy; try reflexivity; f_equal;
    rewrite (Z.compare_antisym ex ey);
    destruct (ex ?= ey); simpl; try reflexivity;
    rewrite (Pos.compare_cont_antisym mx my Eq); reflexivity.
Qed.

Lemma SFltb_SFleb (x y : spec_float) :
  SFltb x y = true -> SFleb x y = true.
Proof. unfold SFltb, SFleb. now destruct (SFcompare x y) as [[]|]. Qed.

Lemma SFltb_false_SFleb (x y : spec_float) :
  x <> S754_nan -> y <> S754_nan ->
  SFltb x y = false -> SFleb y x = true.
Proof.
  intros Hx Hy. unfold SFltb, SFleb. rewrite (SFcompare_antisym x y).
  destruct (SFcompare x y) as [[]|] eqn:E; simpl; try easy.
  destruct x, y; simpl in E; congruence.
Qed.

Lemma num_ok_not_nan (a : PyNum) :
  num_ok a = true -> to_float a <> S754_nan.
Proof.
  unfold num_ok. destruct (to_float a); simpl; congruence.
Qed.

Lemma num_ok_int (n : Z) : num_ok (PyInt n) = true.
Proof.
  unfold num_ok. simpl. unfold F64.of_int.
  pose proof (binary_normalize_not_nan F64.prec F64.emax n 0 false) as H.
  destruct (binary_normalize F64.prec F64.emax n 0 false); simpl; congruence.
Qed.

(** [a < b] gives [b >= a]. *)
Lemma py_lt_ge (a b : PyNum) : py_lt a b = true -> py_ge b a = true.
Proof.
  unfold py_ge, py_le, py_lt, F64.ltb, F64.leb.
  destruct a, b; try apply SFltb_SFleb. lia.
Qed.

(** Two numbers that are not NaN compare one way or the other. *)
Lemma py_not_lt_ge (a b : PyNum) :
  num_ok a = true -> num_ok b = true ->
  py_lt a b = false -> py_ge a b = true.
Proof.
  intros Ha Hb. apply num_ok_not_nan in Ha, Hb.
  unfold py_ge, py_le, py_lt, F64.ltb, F64.leb.
  destruct a, b; try (now apply SFltb_false_SFleb). lia.
Qed.
End CompareFacts.

(* ================================================================== *)
(** * The sort *)

Section SortFacts.
Context {A : Type} (key : A -> PyNum).

Lemma insert_desc_perm (x : A) (l : list A) :
  Permutation (insert_desc key x l) (x :: l).
Proof.
  induction l as [|y l IH]; simpl; [reflexivity|].
  destruct (py_lt (key x) (key y)); [|reflexivity].
  rewrite IH. apply perm_swap.
Qed.

Lemma sort_reverse_perm (l : list A) : Permutation (sort_reverse key l) l.
Proof.
  induction l as [|x l IH]; simpl; [reflexivity|].
  rewrite insert_desc_perm. now constructor.
Qed.

Lemma insert_desc_hd (x y : A) (l : list A) :
  key_ge key y x -> HdRel (key_ge key) y l ->
  HdRel (key_ge key) y (insert_desc key x l).
Proof.
  intros Hyx Hl. destruct l as [|z l]; simpl; [now constructor|].
  destruct (py_lt (key x) (key z)); constructor; [|assumption].
  now inversion Hl.
Qed.

Lemma insert_desc_sorted (x : A) (l : list A) :
  key_ok key x -> Forall (key_ok key) l -> Sorted (key_ge key) l ->
  Sorted (key_ge key) (insert_desc key x l).
Proof.
  intros Hx Hok Hs. induction l as [|y l IH]; simpl.
  - repeat constructor.
  - inversion Hok as [|? ? Hy Hl]; subst.
    inversion Hs as [|? ? Hs' Hhd]; subst.
    destruct (py_lt (key x) (key y)) eqn:E.
    + constructor; [now apply IH|].
      apply insert_desc_hd; [|assumption].
      now apply py_lt_ge.
    + constructor; [assumption|]. constructor.
      now apply py_not_lt_ge.
Qed.

(** In reverse order every item is at least the one that follows it,
    provided no key is a NaN. *)
Lemma sort_reverse_sorted (l : list A) :
  Forall (key_ok key) l -> Sorted (key_ge key) (sort_reverse key l).
Proof.
  induction l as [|x l IH]; intros Hok; simpl; [constructor|].
  inversion Hok; subst.
  apply insert_desc_sorted; [assumption | | now apply IH].
  apply Forall_forall. intros y Hy.
  eapply Forall_forall; [eassumption|].
  eapply Permutation_in; [apply sort_reverse_perm | exact Hy].
Qed.
End SortFacts.

Lemma Sorted_map {A B : Type} (R : A -> A -> Prop) (R' : B -> B -> Prop)
  (f : A -> B) (l : list A) :
  (forall a b, R a b -> R' (f a) (f b)) ->
  Sorted R l -> Sorted R' (map f l).
Proof.
  intros HR Hs. induction Hs as [|a l Hs IH Hhd]; simpl; constructor.
  - exact IH.
  - destruct Hhd; simpl; constructor. now apply HR.
Qed.

(* ================================================================== *)
(** * The score of one clue *)

Section ScoreFacts.
Local Open Scope Z_scope.

Lemma points_cases (clue_type : string) :
  In (dict_get CLUE_TYPE_POINTS clue_type 5) [30; 20; 10; 5].
Proof.
  unfold CLUE_TYPE_POINTS, dict_get.
  repeat match goal with
         | |- context [String.eqb ?a ?b] => destruct (String.eqb a b)
         end; simpl; auto.
Qed.

Lemma unknown_points : dict_getitem CLUE_TYPE_POINTS "unknown" = Ok 5.
Proof. reflexivity. Qed.

(** The loop body computes [total_score] of the parsed type and of the
    distance [_min_distance_to_path] returns, whenever the distance is
    returned. *)
Lemma score_clue_ok (self : ClueMeisterAgent) (desc : string) (s : PyNum) :
  score_clue self desc = Ok s <->
  exists clue_type coord distance,
    _parse_clue desc = Ok (clue_type, coord) /\
    _min_distance_to_path self coord = Ok distance /\
    s = total_score clue_type distance.
Proof.
  unfold score_clue, total_score. rewrite unknown_points. split.
  - destruct (_parse_clue desc) as [[ty c]|e]; [|discriminate].
    cbn [bind].
    destruct (_min_distance_to_path self c) as [d|e] eqn:Hd; [|discriminate].
    cbn [bind]. intros H. exists ty, c, d.
    split; [reflexivity|]. split; [exact Hd|].
    injection H as <-. reflexivity.
  - intros (ty & c & d & -> & Hd & ->).
    cbn [bind]. rewrite Hd. reflexivity.
Qed.

Lemma of_int_zero : F64.of_int 0 = S754_zero false.
Proof. reflexivity. Qed.

(** A total score is never a NaN: the bonus is the int [0] unless
    [100 - distance] is above zero. *)
Lemma total_score_ok (clue_type : string) (distance : F64.float) :
  num_ok (total_score clue_type distance) = true.
Proof.
  unfold total_score, py_max, py_gt.
  set (x := F64.sub (to_float (PyInt 100)) (to_float (PyFloat distance))).
  change (py_sub (PyInt 100) (PyFloat distance)) with (PyFloat x).
  change (py_lt (PyInt 0) (PyFloat x))
    with (SFltb (F64.of_int 0) x).
  rewrite of_int_zero.
  destruct (SFltb (S754_zero false) x) eqn:E.
  - set (pts := dict_get CLUE_TYPE_POINTS clue_type 5).
    change (py_add (PyInt pts) (PyFloat x))
      with (PyFloat (SFadd F64.prec F64.emax (F64.of_int pts) x)).
    assert (Hpts : exists m e, F64.of_int pts = S754_finite false m e).
    { pose proof (points_cases clue_type) as H. fold pts in H.
      simpl in H.
      destruct H as [<-|[<-|[<-|[<-|[]]]]]; vm_compute; eauto. }
    destruct Hpts as (m & e & ->).
    pose proof (add_positive_not_nan F64.prec F64.emax m e x E) as H.
    unfold num_ok, to_float.
    destruct (SFadd F64.prec F64.emax (S754_finite false m e) x);
      simpl; congruence.
  - apply num_ok_int.
Qed.

Lemma score_clue_num_ok (self : ClueMeisterAgent) (desc : string) (s : PyNum) :
  score_clue self desc = Ok s -> num_ok s = true.
Proof.
  intros H. apply score_clue_ok in H.
  destruct H as (ty & c & d & _ & _ & ->). apply total_score_ok.
Qed.
End ScoreFacts.

(* ================================================================== *)
(** * [rank_clues] *)

Section RankFacts.

(** The loop keeps the clues in order, one tuple for each, with the score
    of [score_clue]. *)
Lemma rank_loop_ok (self : ClueMeisterAgent) (clues : Clues) :
  forall ranked,
    rank_loop self clues = Ok ranked ->
    map fst ranked = clues /\
    Forall (fun t => score_clue self (snd (fst t)) = Ok (snd t)) ranked.
Proof.
  induction clues as [|[cid desc] clues IH]; intros ranked H.
  - injection H as <-. split; constructor.
  - cbn [rank_loop] in H.
    destruct (score_clue self desc) as [s|e] eqn:Hs; [|discriminate].
    cbn [bind] in H.
    destruct (rank_loop self clues) as [r|e]; [|discriminate].
    cbn [bind] in H. injection H as <-.
    destruct (IH r eq_refl) as [Hmap Hall].
    split; [simpl; now rewrite Hmap|].
    constructor; assumption.
Qed.

(** The loop returns when every clue has a score. *)
Lemma rank_loop_total (self : ClueMeisterAgent) (clues : Clues) :
  (forall cid desc, In (cid, desc) clues ->
                    exists s, score_clue self desc = Ok s) ->
  exists ranked, rank_loop self clues = Ok ranked.
Proof.
  induction clues as [|[cid desc] clues IH]; intros H.
  - now exists [].
  - destruct (H cid desc (or_introl eq_refl)) as [s Hs].
    destruct IH as [r Hr].
    { intros c d Hin. apply (H c d). now right. }
    exists ((cid, desc, s) :: r).
    cbn [rank_loop]. rewrite Hs. cbn [bind]. rewrite Hr. reflexivity.
Qed.

(** An exception of the loop is the exception of one clue's score. *)
Lemma rank_loop_raise (self : ClueMeisterAgent) (clues : Clues) (e : PyExc) :
  rank_loop self clues = Raise e ->
  exists cid desc, In (cid, desc) clues /\ score_clue self desc = Raise e.
Proof.
  induction clues as [|[cid desc] clues IH]; intros H; [discriminate|].
  cbn [rank_loop] in H.
  destruct (score_clue self desc) as [s|e'] eqn:Hs.
  - cbn [bind] in H.
    destruct (rank_loop self clues) as [r|e'']; [discriminate|].
    cbn [bind] in H. injection H as ->.
    destruct (IH eq_refl) as (c & d & Hin & Hd).
    exists c, d. split; [now right | exact Hd].
  - cbn [bind] in H. injection H as ->.
    exists cid, desc. split; [now left | exact Hs].
Qed.

Lemma rank_clues_nonempty (self : ClueMeisterAgent) :
  path self <> [] ->
  rank_clues self
  = (ranked <- rank_loop self (kb self) ;;
     Ok (RespRanked (map to_record (sort_reverse (fun x => snd x) ranked)))).
Proof.
  intros H. unfold rank_clues. destruct (path self); [contradiction|].
  reflexivity.
Qed.

Lemma rank_clues_ranked (self : ClueMeisterAgent) (recs : list RankedClue) :
  rank_clues self = Ok (RespRanked recs) ->
  path self <> [] /\
  exists ranked,
    rank_loop self (kb self) = Ok ranked /\
    recs = map to_record (sort_reverse (fun x => snd x) ranked).
Proof.
  intros H.
  assert (Hp : path self <> []).
  { unfold rank_clues in H. destruct (path self); [discriminate|].
    discriminate. }
  split; [exact Hp|].
  rewrite (rank_clues_nonempty self Hp) in H.
  destruct (rank_loop self (kb self)) as [r|e]; [|discriminate].
  cbn [bind] in H. injection H as <-. now exists r.
Qed.

(** The records of a returned ranking are the clues of the source, each
    once, in some order. *)
Lemma rank_clues_permutation (self : ClueMeisterAgent)
  (recs : list RankedClue) :
  rank_clues self = Ok (RespRanked recs) ->
  Permutation (map (fun r => (id r, description r)) recs) (kb self).
Proof.
  intros H. destruct (rank_clues_ranked self recs H) as (_ & r & Hr & ->).
  destruct (rank_loop_ok self (kb self) r Hr) as [Hmap _].
  rewrite map_map.
  rewrite (map_ext _ fst) by (intros [[c d] s]; reflexivity).
  rewrite <- Hmap. apply Permutation_map, sort_reverse_perm.
Qed.

(** The ranking depends on the agent through its clues and its path. *)
Lemma rank_clues_ext (a b : ClueMeisterAgent) :
  kb a = kb b -> path a = path b -> rank_clues a = rank_clues b.
Proof.
  intros Hk Hp.
  assert (Hs : forall desc, score_clue a desc = score_clue b desc).
  { intros desc. unfold score_clue, _min_distance_to_path.
    now rewrite Hp. }
  assert (Hl : forall clues, rank_loop a clues = rank_loop b clues).
  { induction clues as [|[c d] clues IH]; [reflexivity|].
    cbn [rank_loop]. now rewrite Hs, IH. }
  unfold rank_clues. now rewrite Hp, Hk, Hl.
Qed.

(** The error for an unset path is returned exactly when the path is
    empty. *)
Lemma rank_clues_path_not_set (self : ClueMeisterAgent) :
  rank_clues self = Ok (RespError (Literal "Path is not set")) <->
  path self = [].
Proof.
  unfold rank_clues. destruct (path self) as [|p ps].
  - now split.
  - split; [|discriminate].
    destruct (rank_loop _ _); discriminate.
Qed.
End RankFacts.

(* ================================================================== *)
(** * Distances: what can be raised, and what is returned *)

Section DistanceFacts.
Local Open Scope Z_scope.

Lemma SFltb_trans (x y z : spec_float) :
  SFltb x y = true -> SFltb y z = true -> SFltb x z = true.
Proof.
  unfold SFltb.
  destruct x as [sx|sx| |sx mx ex], y as [sy|sy| |sy my ey],
           z as [sz|sz| |sz mz ez]; simpl;
    try discriminate; try (destruct sx, sy, sz; simpl; congruence);
    try (destruct sx, sy; simpl; congruence);
    try (destruct sx, sz; simpl; congruence);
    try (destruct sy, sz; simpl; congruence).
  all: destruct sx, sy, sz; simpl; try congruence;
    repeat match goal with
      | |- context [PosDef.Pos.compare_cont Eq ?p ?q] =>
          change (PosDef.Pos.compare_cont Eq p q) with (Pos.compare p q)
      end;
    destruct (Z.compare_spec ex ey), (Z.compare_spec ey ez),
             (Z.compare_spec ex ez);
    simpl; try congruence; try lia;
    destruct (Pos.compare_spec mx my), (Pos.compare_spec my mz),
             (Pos.compare_spec mx mz);
    simpl; try congruence; try lia.
Qed.

Lemma SFltb_irrefl (x : spec_float) : SFltb x x = false.
Proof.
  pose proof (SFcompare_antisym x x) as H. unfold SFltb.
  destruct (SFcompare x x) as [[]|]; simpl in H; congruence.
Qed.

Lemma SFltb_nan_r (x : spec_float) : SFltb x S754_nan = false.
Proof. now destruct x. Qed.

Lemma SFcompare_not_below (a b c : spec_float) (ab bc : comparison) :
  SFcompare a b = Some ab -> SFcompare b c = Some bc ->
  ab <> Lt -> bc <> Lt -> SFcompare a c <> Some Lt.
Proof.
  destruct a as [sa|sa| |sa ma ea], b as [sb|sb| |sb mb eb],
           c as [sc|sc| |sc mc ec]; simpl;
    try congruence;
    try (destruct sa, sb, sc; simpl; congruence);
    try (destruct sa, sb; simpl; congruence);
    try (destruct sa, sc; simpl; congruence);
    try (destruct sb, sc; simpl; congruence).
  destruct sa, sb, sc; simpl; try congruence;
    repeat match goal with
      | |- context [PosDef.Pos.compare_cont Eq ?p ?q] =>
          change (PosDef.Pos.compare_cont Eq p q) with (Pos.compare p q)
      end;
    destruct (Z.compare_spec ea eb), (Z.compare_spec eb ec),
             (Z.compare_spec ea ec);
    simpl; try congruence; try lia;
    destruct (Pos.compare_spec ma mb), (Pos.compare_spec mb mc),
             (Pos.compare_spec ma mc);
    simpl; try congruence; try lia.
Qed.

(** Below a number [b] that is not NaN: what is not below [b] is not
    below anything that [b] is not below. *)
Lemma SFltb_not_below (a b c : spec_float) :
  b <> S754_nan ->
  SFltb a b = false -> SFltb b c = false -> SFltb a c = false.
Proof.
  intros Hb Hab Hbc.
  destruct (SFltb a c) eqn:Hac; [|reflexivity].
  assert (Ha : a <> S754_nan) by (intros ->; discriminate).
  assert (Hc : c <> S754_nan)
    by (intros ->; now rewrite SFltb_nan_r in Hac).
  unfold SFltb in *.
  destruct (SFcompare a b) as [ab|] eqn:E1;
    [|destruct a, b; simpl in E1; congruence].
  destruct (SFcompare b c) as [bc|] eqn:E2;
    [|destruct b, c; simpl in E2; congruence].
  exfalso. apply (SFcompare_not_below a b c ab bc E1 E2).
  - now destruct ab.
  - now destruct bc.
  - now destruct (SFcompare a c) as [[]|].
Qed.

(** *** Squares, sums and roots *)

Lemma float_pow2_outcome (x : F64.float) :
  match float_pow2 x with
  | Ok r => nonneg_or_nan r
  | Raise e => e = OverflowError
  end.
Proof.
  destruct x as [s|s| |s m e]; simpl;
    [right; reflexivity | right; reflexivity | left; reflexivity |].
  pose proof (binary_round_aux_sign F64.prec F64.emax false
                (Z.pos (m * m)) (e + e) loc_Exact) as H.
  specialize (H ltac:(lia)).
  unfold F64.mul. cbn [SFmul]. cbn [xorb].
  destruct (binary_round_aux F64.prec F64.emax false (Z.pos (m * m)) (e + e)
              loc_Exact);
    (reflexivity || (right; exact H) || contradiction).
Qed.

Lemma add_nonneg_or_nan (a b : spec_float) :
  nonneg_or_nan a -> nonneg_or_nan b -> nonneg_or_nan (F64.add a b).
Proof.
  intros [->|Ha]; [now left|].
  intros [->|Hb]; [left; now destruct a|].
  unfold F64.add.
  destruct a as [sa|sa| |sa ma ea]; simpl in Ha; try contradiction; subst sa;
    destruct b as [sb|sb| |sb mb eb]; simpl in Hb; try contradiction;
    subst sb;
    try (right; reflexivity).
  right. cbn [SFadd cond_Zopp].
  apply (binary_round_sign F64.prec F64.emax false).
Qed.

(** The root of such a number never is a domain error. *)
Lemma math_sqrt_returns (x : spec_float) :
  nonneg_or_nan x -> exists r, math_sqrt x = Ok r.
Proof.
  intros [->|Hx]; [now exists S754_nan|].
  unfold math_sqrt, F64.sqrt.
  destruct x as [s|s| |s m e]; simpl in Hx; try contradiction; subst s;
    [eexists; reflexivity | eexists; reflexivity |].
  cbn [SFsqrt].
  destruct (SFsqrt_core_binary F64.prec F64.emax (Z.pos m) e)
    as [[mz ez] lz] eqn:E.
  assert (Hmz : 0 <= mz).
  { unfold SFsqrt_core_binary in E.
    match type of E with
    | (let (q, r) := Z.sqrtrem ?n in _) = _ =>
        pose proof (Z.sqrtrem_sqrt n) as Hq;
        pose proof (Z.sqrt_nonneg n) as Hn;
        destruct (Z.sqrtrem n) as [q r]
    end.
    cbn [fst] in Hq. injection E as <- _ _. rewrite Hq. exact Hn. }
  pose proof (binary_round_aux_sign F64.prec F64.emax false mz ez lz Hmz)
    as H.
  destruct (binary_round_aux F64.prec F64.emax false mz ez lz);
    simpl in H; try contradiction; eexists; reflexivity.
Qed.

(** [_euclidean_distance] returns, or raises [OverflowError]. *)
Lemma euclidean_distance_raise (p1 p2 : Coord) (e : PyExc) :
  _euclidean_distance p1 p2 = Raise e -> e = OverflowError.
Proof.
  unfold _euclidean_distance.
  pose proof (float_pow2_outcome (F64.sub (fst p1) (fst p2))) as Hx.
  pose proof (float_pow2_outcome (F64.sub (snd p1) (snd p2))) as Hy.
  destruct (float_pow2 (F64.sub (fst p1) (fst p2))) as [dx2|ex];
    cbn [bind]; [|congruence].
  destruct (float_pow2 (F64.sub (snd p1) (snd p2))) as [dy2|ey];
    cbn [bind]; [|congruence].
  destruct (math_sqrt_returns _ (add_nonneg_or_nan dx2 dy2 Hx Hy)) as [r ->].
  discriminate.
Qed.

(** *** The minimum *)

Lemma min_rest_nan {A : Type} (f : A -> result F64.float) (ps : list A) :
  forall d, min_rest f S754_nan ps = Ok d -> d = S754_nan.
Proof.
  induction ps as [|p ps IH]; intros d H.
  - now injection H as <-.
  - cbn [min_rest] in H. destruct (f p) as [dp|e]; [|discriminate].
    cbn [bind] in H. unfold F64.ltb in H. rewrite SFltb_nan_r in H.
    now apply IH.
Qed.

(** The result is the first item or a later one, and no item is below
    it. *)
Lemma min_rest_spec {A : Type} (f : A -> result F64.float) (ps : list A) :
  forall cur d,
    min_rest f cur ps = Ok d ->
    (d = cur \/ exists p, In p ps /\ f p = Ok d) /\
    SFltb cur d = false /\
    forall p d', In p ps -> f p = Ok d' -> SFltb d' d = false.
Proof.
  induction ps as [|p ps IH]; intros cur d H.
  - injection H as <-. repeat split; [now left | | intros ? ? []].
    apply SFltb_irrefl.
  - cbn [min_rest] in H. destruct (f p) as [dp|e] eqn:Hp; [|discriminate].
    cbn [bind] in H. unfold F64.ltb in H.
    destruct (IH _ _ H) as (Hd & Hcur & Hall).
    destruct (SFltb dp cur) eqn:Hlt.
    + (* the item replaces the minimum *)
      split; [|split].
      * right. destruct Hd as [->|(q & Hq & Hfq)];
          [exists p | exists q]; simpl; auto.
      * destruct (SFltb cur d) eqn:E; [|reflexivity].
        now rewrite (SFltb_trans dp cur d Hlt E) in Hcur.
      * intros q d' [<-|Hq] Hfq; [|now apply (Hall q)].
        rewrite Hp in Hfq. now injection Hfq as <-.
    + (* the minimum stays *)
      split; [|split].
      * destruct Hd as [->|(q & Hq & Hfq)]; [now left|].
        right. exists q. simpl. auto.
      * exact Hcur.
      * intros q d' [<-|Hq] Hfq; [|now apply (Hall q)].
        rewrite Hp in Hfq. injection Hfq as <-.
        destruct cur as [sc|sc| |sc mc ec] eqn:Ec;
          try (apply (SFltb_not_below dp cur d); subst cur;
               [discriminate | assumption | assumption]).
        rewrite (min_rest_nan f ps d H). apply SFltb_nan_r.
Qed.

Lemma py_min_spec {A : Type} (f : A -> result F64.float) (ps : list A)
  (d : F64.float) :
  py_min f ps = Ok d ->
  (exists p, In p ps /\ f p = Ok d) /\
  forall p d', In p ps -> f p = Ok d' -> SFltb d' d = false.
Proof.
  destruct ps as [|p0 ps]; [discriminate|].
  cbn [py_min]. destruct (f p0) as [d0|e] eqn:H0; [|discriminate].
  cbn [bind]. intros H.
  destruct (min_rest_spec f ps d0 d H) as (Hd & Hcur & Hall).
  split.
  - destruct Hd as [->|(q & Hq & Hfq)]; [exists p0 | exists q];
      simpl; auto.
  - intros q d' [<-|Hq] Hfq; [|now apply (Hall q)].
    rewrite H0 in Hfq. now injection Hfq as <-.
Qed.

Lemma min_rest_raise {A : Type} (f : A -> result F64.float) (ps : list A) :
  forall cur e,
    min_rest f cur ps = Raise e -> exists p, In p ps /\ f p = Raise e.
Proof.
  induction ps as [|p ps IH]; intros cur e H; [discriminate|].
  cbn [min_rest] in H. destruct (f p) as [dp|e'] eqn:Hp.
  - cbn [bind] in H. destruct (IH _ _ H) as (q & Hq & Hfq).
    exists q. simpl. auto.
  - cbn [bind] in H. injection H as ->. exists p. simpl. auto.
Qed.

Lemma min_rest_returns {A : Type} (f : A -> result F64.float)
  (ps : list A) :
  (forall p, In p ps -> exists d, f p = Ok d) ->
  forall cur, exists d, min_rest f cur ps = Ok d.
Proof.
  induction ps as [|p ps IH]; intros H cur; [now exists cur|].
  destruct (H p (or_introl eq_refl)) as [dp Hp].
  cbn [min_rest]. rewrite Hp. cbn [bind].
  apply IH. intros q Hq. apply H. now right.
Qed.

(** On a path that is not empty [_min_distance_to_path] raises nothing
    but [OverflowError]: the [ValueError] of an empty [min] cannot
    happen. *)
Lemma min_distance_raise (self : ClueMeisterAgent) (coord : Coord) (e : PyExc) :
  path self <> [] ->
  _min_distance_to_path self coord = Raise e -> e = OverflowError.
Proof.
  unfold _min_distance_to_path, py_min. intros Hp H.
  destruct (path self) as [|p ps]; [contradiction|].
  destruct (_euclidean_distance coord p) as [d|e'] eqn:E.
  - cbn [bind] in H.
    destruct (min_rest_raise _ _ _ _ H) as (q & _ & Hq).
    exact (euclidean_distance_raise _ _ _ Hq).
  - cbn [bind] in H. injection H as ->.
    exact (euclidean_distance_raise _ _ _ E).
Qed.

(** Where every distance to a vertex is returned, their minimum is: a
    distance to some vertex that no other is below. *)
Lemma min_distance_returns (self : ClueMeisterAgent) (coord : Coord) :
  path self <> [] ->
  (forall p, In p (path self) ->
             exists d, _euclidean_distance coord p = Ok d) ->
  exists d,
    _min_distance_to_path self coord = Ok d /\
    (exists p, In p (path self) /\ _euclidean_distance coord p = Ok d) /\
    forall p d', In p (path self) ->
                 _euclidean_distance coord p = Ok d' ->
                 F64.ltb d' d = false.
Proof.
  intros Hp Hall.
  assert (exists d, _min_distance_to_path self coord = Ok d) as [d Hd].
  { unfold _min_distance_to_path, py_min.
    destruct (path self) as [|p ps]; [contradiction|].
    destruct (Hall p (or_introl eq_refl)) as [d0 ->]. cbn [bind].
    apply min_rest_returns. intros q Hq. apply Hall. now right. }
  exists d. split; [exact Hd|].
  exact (py_min_spec _ _ _ Hd).
Qed.
End DistanceFacts.

(* ================================================================== *)
(** * What [rank_clues] can raise *)

Section Outcomes.
Local Open Scope string_scope.

Lemma parse_clue_returns (desc : string) : exists r, _parse_clue desc = Ok r.
Proof.
  destruct (str_partition " at " desc) as [[b a]|] eqn:Hp; eexists.
  - exact (parse_clue_present desc b a Hp).
  - exact (parse_clue_absent desc Hp).
Qed.

Lemma score_clue_raise (self : ClueMeisterAgent) (desc : string) (e : PyExc) :
  path self <> [] -> score_clue self desc = Raise e -> e = OverflowError.
Proof.
  intros Hp. unfold score_clue. rewrite unknown_points.
  destruct (parse_clue_returns desc) as [[ty c] ->]. cbn [bind].
  destruct (_min_distance_to_path self c) as [d|e'] eqn:Hd;
    cbn [bind]; [discriminate|].
  intros H. injection H as ->.
  exact (min_distance_raise self c e Hp Hd).
Qed.

(** [rank_clues] raises nothing but [OverflowError], and only on a path
    that is not empty. *)
Lemma rank_clues_raise (self : ClueMeisterAgent) (e : PyExc) :
  rank_clues self = Raise e -> e = OverflowError /\ path self <> [].
Proof.
  intros H.
  assert (Hp : path self <> []).
  { unfold rank_clues in H. now destruct (path self). }
  split; [|exact Hp].
  rewrite (rank_clues_nonempty self Hp) in H.
  destruct (rank_loop self (kb self)) as [r|e'] eqn:Hl; [discriminate|].
  cbn [bind] in H. injection H as ->.
  destruct (rank_loop_raise self (kb self) e Hl) as (c & d & _ & Hs).
  exact (score_clue_raise self d e Hp Hs).
Qed.

(** On a path that is not empty [rank_clues] returns a ranked list or
    raises [OverflowError]. *)
Lemma rank_clues_outcomes (self : ClueMeisterAgent) :
  path self <> [] ->
  (exists recs, rank_clues self = Ok (RespRanked recs)) \/
  rank_clues self = Raise OverflowError.
Proof.
  intros Hp. destruct (rank_clues self) as [r|e] eqn:H.
  - left. rewrite (rank_clues_nonempty self Hp) in H.
    destruct (rank_loop self (kb self)) as [l|e]; [|discriminate].
    cbn [bind] in H. injection H as <-. now eexists.
  - right. now destruct (rank_clues_raise self e H) as [-> _].
Qed.

(** It returns the ranked list when the distance of every clue is
    returned, and then every clue has the score of the specification. *)
Lemma rank_clues_returns (self : ClueMeisterAgent) :
  path self <> [] ->
  (forall cid desc, In (cid, desc) (kb self) ->
                    exists s, score_clue self desc = Ok s) ->
  exists recs,
    rank_clues self = Ok (RespRanked recs) /\
    Permutation (map (fun r => (id r, description r)) recs) (kb self).
Proof.
  intros Hp Hall.
  destruct (rank_loop_total self (kb self) Hall) as [l Hl].
  exists (map to_record (sort_reverse (fun x => snd x) l)).
  assert (H : rank_clues self
              = Ok (RespRanked
                      (map to_record (sort_reverse (fun x => snd x) l)))).
  { rewrite (rank_clues_nonempty self Hp), Hl. reflexivity. }
  split; [exact H|]. exact (rank_clues_permutation self _ H).
Qed.

Lemma rank_clues_scores (self : ClueMeisterAgent) (recs : list RankedClue) :
  rank_clues self = Ok (RespRanked recs) ->
  forall r, In r recs ->
    In (id r, description r) (kb self) /\
    exists clue_type coord distance,
      _parse_clue (description r) = Ok (clue_type, coord) /\
      _min_distance_to_path self coord = Ok distance /\
      score r = total_score clue_type distance.
Proof.
  intros H r Hr.
  split.
  - eapply Permutation_in; [exact (rank_clues_permutation self recs H)|].
    now apply (in_map (fun r => (id r, description r))).
  - destruct (rank_clues_ranked self recs H) as (_ & l & Hl & ->).
    destruct (rank_loop_ok self (kb self) l Hl) as [_ Hall].
    apply in_map_iff in Hr. destruct Hr as ([[c d] sc] & <- & Hin).
    assert (Hin' : In (c, d, sc) l).
    { eapply Permutation_in; [apply sort_reverse_perm | exact Hin]. }
    rewrite Forall_forall in Hall. specialize (Hall _ Hin').
    cbn [fst snd] in Hall. cbn [to_record description score].
    now apply score_clue_ok.
Qed.
End Outcomes.

Section RunFacts.

(** A request that does not reach the [update_path] branch returns the
    agent as it was. *)
Lemma process_request_no_update (a : ClueMeisterAgent)
  (m : Msg.ClueMessage) :
  reaches_update_path m = false -> fst (process_request a m) = a.
Proof.
  unfold reaches_update_path, process_request, process_request_try.
  destruct (truthy (Msg.get_clues m)); [reflexivity|].
  destruct (truthy (Msg.get_status m)); [reflexivity|].
  destruct (Msg.update_path m); [discriminate|]. intros _. cbn [present].
  destruct (truthy (Msg.rank_clues m)); [|reflexivity].
  now destruct (rank_clues a).
Qed.

Lemma run_no_update (messages : list Msg.ClueMessage) :
  forall a,
    Forall (fun m => reaches_update_path m = false) messages ->
    run a messages = a.
Proof.
  induction messages as [|m ms IH]; intros a H; [reflexivity|].
  inversion H as [|? ? Hm Hms]; subst. unfold run in *. cbn [fold_left].
  rewrite (process_request_no_update a m Hm). now apply IH.
Qed.

(** The response to a [rank_clues] request is the outcome of
    [rank_clues]. *)
Lemma rank_request_response (a : ClueMeisterAgent) :
  snd (process_request a (request_rank_clues true))
  = match rank_clues a with
    | Ok r => r
    | Raise e => RespError (StrOf e)
    end.
Proof.
  unfold process_request, process_request_try.
  cbn [request_rank_clues Msg.get_clues Msg.get_status Msg.update_path
       Msg.rank_clues truthy present].
  now destruct (rank_clues a).
Qed.
End RunFacts.

(* ================================================================== *)
(** * The claims *)

Section Claims.
Local Open Scope string_scope.

(** The sample floats are what [float] reads from their decimal text. *)
Lemma sample_floats_read :
  float_of_str "0" = Some f0 /\ float_of_str "1" = Some f1 /\
  float_of_str "2" = Some f2 /\ float_of_str "45.2" = Some f45_2 /\
  float_of_str "-121.3" = Some fm121_3 /\ float_of_str "130" = Some f130 /\
  float_of_str "1e200" = Some f1e200.
Proof. repeat split; vm_compute; reflexivity. Qed.

(** C1. The score of a clue is its type points plus
    [max(0, 100 - distance)]: on the path [[(0, 0)]] the clue
    ["IR signature at 0,0"] scores [130.0]. For every clue to have that
    score the ranking must return, and it does not on every clue set: the
    clue ["unknown thing at 1e200,0"], whose score would be [5], makes
    [rank_clues] raise [OverflowError] on the same path. *)
Theorem rank_clues_overflow_assigns_no_score :
  rank_clues (agent_at_origin [(1%Z, "IR signature at 0,0")])
  = Ok (RespRanked
          [{| id := 1; description := "IR signature at 0,0";
              score := PyFloat f130 |}]) /\
  _parse_clue "unknown thing at 1e200,0"
  = Ok ("unknown thing", (f1e200, f0)) /\
  total_score "unknown thing" f1e200 = PyInt 5 /\
  rank_clues (agent_at_origin [(7%Z, "unknown thing at 1e200,0")])
  = Raise OverflowError.
Proof. repeat split; vm_compute; reflexivity. Qed.

(** C2. With an empty path [rank_clues] returns
    [{"error": "Path is not set"}]. With a path that is not empty it does
    not always return the ranked list: on the path [[(0, 0)]] and the clue
    ["unknown thing at 1e200,0"] it raises [OverflowError], which
    [process_request] reports as an error. *)
Theorem rank_clues_raises_on_set_path :
  rank_clues (__init__ [(7%Z, "unknown thing at 1e200,0")])
  = Ok (RespError (Literal "Path is not set")) /\
  path (agent_at_origin [(7%Z, "unknown thing at 1e200,0")])
  = [(f0, f0)] /\
  rank_clues (agent_at_origin [(7%Z, "unknown thing at 1e200,0")])
  = Raise OverflowError /\
  process_request (agent_at_origin [(7%Z, "unknown thing at 1e200,0")])
    (request_rank_clues true)
  = (agent_at_origin [(7%Z, "unknown thing at 1e200,0")],
     RespError (StrOf OverflowError)).
Proof. repeat split; vm_compute; reflexivity. Qed.

(** C3. Whenever [rank_clues] returns a ranked list, the list is in
    descending order of score: every record's score is [>=] the score of
    the record that follows it. *)
Theorem ranked_output_sorted (self : ClueMeisterAgent)
  (recs : list RankedClue) :
  rank_clues self = Ok (RespRanked recs) ->
  Sorted score_ge recs.
Proof.
  intros H. destruct (rank_clues_ranked self recs H) as (_ & r & Hr & ->).
  destruct (rank_loop_ok self (kb self) r Hr) as [_ Hall].
  apply (Sorted_map (fun a b => py_ge (snd a) (snd b) = true)).
  - intros [[c1 d1] s1] [[c2 d2] s2] Hge. exact Hge.
  - apply (sort_reverse_sorted (fun x => snd x)).
    eapply Forall_impl; [|exact Hall].
    intros t Ht. exact (score_clue_num_ok self _ _ Ht).
Qed.

Lemma ranked_output_sorted_witness :
  exists recs,
    rank_clues (agent_at_origin sample_clues) = Ok (RespRanked recs) /\
    map id recs = [2; 4; 1; 3]%Z /\
    Sorted score_ge recs.
Proof.
  eexists. split; [vm_compute; reflexivity|].
  split; [reflexivity|].
  apply (ranked_output_sorted (agent_at_origin sample_clues)).
  vm_compute. reflexivity.
Defined.

(** C4. A returned ranking holds one record for each clue, but the
    ranking is not returned for every clue set: with the clues
    ["IR signature at 0,0"] and ["unknown thing at 1e200,0"] on the path
    [[(0, 0)]], [rank_clues] raises [OverflowError] and gives no record
    for either clue. *)
Theorem rank_clues_overflow_returns_no_record :
  path (agent_at_origin [(1%Z, "IR signature at 0,0");
                         (7%Z, "unknown thing at 1e200,0")])
  = [(f0, f0)] /\
  rank_clues (agent_at_origin [(1%Z, "IR signature at 0,0");
                               (7%Z, "unknown thing at 1e200,0")])
  = Raise OverflowError /\
  forall recs,
    rank_clues (agent_at_origin [(1%Z, "IR signature at 0,0");
                                 (7%Z, "unknown thing at 1e200,0")])
    <> Ok (RespRanked recs).
Proof.
  assert (H : rank_clues (agent_at_origin [(1%Z, "IR signature at 0,0");
                                           (7%Z, "unknown thing at 1e200,0")])
              = Raise OverflowError) by (vm_compute; reflexivity).
  split; [reflexivity|]. split; [exact H|].
  intros recs. rewrite H. discriminate.
Qed.

(** C5, as the code has it. [_parse_clue] returns for every description
    and never raises. Without the separator [" at "] it gives the type
    ["unknown"] and the coordinate [(0.0, 0.0)]. With the separator, when
    the coordinate text does not hold exactly two comma-separated numbers,
    the coordinate is [(0.0, 0.0)] and the type is still the trimmed text
    before the separator; so for ["footprint at not-a-number,also-bad"].
    The coordinate text is the text after the first separator up to a
    further separator when the description has more than one, not the
    whole text after the separator. *)
Theorem parse_clue_degrades_softly (desc : string) :
  (exists r, _parse_clue desc = Ok r) /\
  (str_contains " at " desc = false ->
   _parse_clue desc = Ok ("unknown", zero_coord)) /\
  (forall before after,
      str_partition " at " desc = Some (before, after) ->
      two_floats (coordinate_text after) = None ->
      _parse_clue desc = Ok (str_strip before, zero_coord)) /\
  (forall after,
      str_contains " at " after = false -> coordinate_text after = after) /\
  _parse_clue "mystery object" = Ok ("unknown", zero_coord) /\
  _parse_clue "footprint at not-a-number,also-bad"
  = Ok ("footprint", zero_coord).
Proof.
  repeat split.
  - destruct (str_partition " at " desc) as [[b a]|] eqn:Hp.
    + eexists. exact (parse_clue_present desc b a Hp).
    + eexists. exact (parse_clue_absent desc Hp).
  - unfold str_contains.
    destruct (str_partition " at " desc) eqn:Hp; [discriminate|].
    intros _. now apply parse_clue_absent.
  - intros before after Hp Hbad.
    rewrite (parse_clue_present desc before after Hp). now rewrite Hbad.
  - intros after. unfold str_contains, coordinate_text.
    now destruct (str_partition " at " after) as [[t r]|].
Qed.

Lemma parse_clue_degrades_softly_witness :
  str_contains " at " "mystery object" = false /\
  _parse_clue "mystery object" = Ok ("unknown", zero_coord) /\
  str_partition " at " "footprint at 1,2,3" = Some ("footprint", "1,2,3") /\
  two_floats (coordinate_text "1,2,3") = None /\
  _parse_clue "footprint at 1,2,3" = Ok ("footprint", zero_coord).
Proof.
  split; [reflexivity|]. split.
  - exact (proj1 (proj2 (parse_clue_degrades_softly "mystery object"))
             eq_refl).
  - split; [reflexivity|]. split; [reflexivity|].
    exact (proj1 (proj2 (proj2 (parse_clue_degrades_softly
                                  "footprint at 1,2,3")))
             "footprint" "1,2,3" eq_refl eq_refl).
Defined.

(** C5 as stated fails: in ["IR signature at 1,2 at ridge"] the text
    after the separator, ["1,2 at ridge"], is malformed (its second
    component is not a number), so the claim gives the coordinate
    [(0.0, 0.0)]; the code reads ["1,2"] and gives [(1.0, 2.0)]. *)
Lemma parse_clue_soft_default_counterexample :
  exists desc before after,
    str_partition " at " desc = Some (before, after) /\
    two_floats after = None /\
    _parse_clue desc = Ok (str_strip before, (f1, f2)) /\
    _parse_clue desc <> Ok (str_strip before, zero_coord).
Proof.
  exists "IR signature at 1,2 at ridge", "IR signature", "1,2 at ridge".
  repeat split; try reflexivity.
  vm_compute. discriminate.
Qed.

(** C6, as the code has it. For a description that contains [" at "], the
    type is the trimmed text before the first separator, and the
    coordinate is read from the text after it up to a further separator
    (not from the entire text after it): that text is split on [","] into
    two components, each trimmed and read as a float, and gives
    [(0.0, 0.0)] when it is not two numbers. *)
Theorem parse_clue_with_separator (desc before after : string) :
  str_partition " at " desc = Some (before, after) ->
  _parse_clue desc
  = Ok (str_strip before,
        match two_floats (coordinate_text after) with
        | Some c => c
        | None => zero_coord
        end).
Proof. apply parse_clue_present. Qed.

Lemma parse_clue_with_separator_witness :
  str_partition " at " "red hat at 45.2,-121.3"
  = Some ("red hat", "45.2,-121.3") /\
  _parse_clue "red hat at 45.2,-121.3" = Ok ("red hat", (f45_2, fm121_3)).
Proof.
  split; [reflexivity|].
  exact (parse_clue_with_separator
           "red hat at 45.2,-121.3" "red hat" "45.2,-121.3" eq_refl).
Defined.

(** C6 as stated fails: in ["red hat at 1,2 at camp"] the entire text
    after the separator, ["1,2 at camp"], is not two numbers, so the
    claim gives the coordinate [(0.0, 0.0)]; the code reads ["1,2"] and
    gives [(1.0, 2.0)]. *)
Lemma parse_clue_entire_text_counterexample :
  exists desc,
    str_contains " at " desc = true /\
    parse_clue_entire_text desc = ("red hat", zero_coord) /\
    _parse_clue desc = Ok ("red hat", (f1, f2)) /\
    _parse_clue desc <> Ok (parse_clue_entire_text desc).
Proof.
  exists "red hat at 1,2 at camp".
  repeat split; try reflexivity.
  vm_compute. discriminate.
Qed.

(** C7. An [update_path] request with the list [P] stores [P] as the
    whole path, for any [P]; it answers
    [{"status": "path updated", "path_length": len(P)}]; and the ranking
    of a later [rank_clues] request is the ranking on the path [P],
    whatever the path was before. This holds of every [rank_clues] request
    issued afterwards, whatever requests come in between, as long as none
    of them reaches the [update_path] branch again: they leave the agent
    as the update left it. When such a request answers with a ranking,
    every score in it is the type points plus [max(0, 100 - d)] for the
    least distance [d] from the clue to a vertex of [P]. *)
Theorem update_path_replaces_path (self : ClueMeisterAgent) (P : list Coord) :
  process_request self (request_update_path P)
  = (with_path self P, RespPathUpdated "path updated" (List.length P)) /\
  path (fst (process_request self (request_update_path P))) = P /\
  kb (fst (process_request self (request_update_path P))) = kb self /\
  snd (process_request
         (fst (process_request self (request_update_path P)))
         (request_rank_clues true))
  = match rank_clues {| kb := kb self; path := P; status := status self |}
    with
    | Ok r => r
    | Raise e => RespError (StrOf e)
    end /\
  (forall (other : ClueMeisterAgent) (b : bool),
    kb other = kb self ->
    snd (process_request
           (fst (process_request other (request_update_path P)))
           (request_rank_clues b))
    = snd (process_request
             (fst (process_request self (request_update_path P)))
             (request_rank_clues b))) /\
  forall between : list Msg.ClueMessage,
    Forall (fun m => reaches_update_path m = false) between ->
    run (fst (process_request self (request_update_path P))) between
    = with_path self P /\
    (forall other : ClueMeisterAgent,
       kb other = kb self ->
       snd (process_request
              (run (fst (process_request other (request_update_path P)))
                   between)
              (request_rank_clues true))
       = match rank_clues (with_path self P) with
         | Ok r => r
         | Raise e => RespError (StrOf e)
         end) /\
    forall recs r,
      snd (process_request
             (run (fst (process_request self (request_update_path P)))
                  between)
             (request_rank_clues true))
      = RespRanked recs ->
      In r recs ->
      exists clue_type coord p d,
        _parse_clue (description r) = Ok (clue_type, coord) /\
        In p P /\ _euclidean_distance coord p = Ok d /\
        (forall q d', In q P -> _euclidean_distance coord q = Ok d' ->
                      F64.ltb d' d = false) /\
        score r = total_score clue_type d.
Proof.
  assert (Hupd : forall a,
             fst (process_request a (request_update_path P))
             = with_path a P) by reflexivity.
  split; [reflexivity|]. split; [reflexivity|]. split; [reflexivity|].
  split; [|split].
  - unfold process_request, process_request_try.
    cbn [request_update_path request_rank_clues Msg.get_clues Msg.get_status
         Msg.update_path Msg.rank_clues truthy present msg_getitem bind fst].
    fold (with_path self P).
    now destruct (rank_clues (with_path self P)).
  - intros other b Hkb. unfold process_request, process_request_try.
    cbn [request_update_path request_rank_clues Msg.get_clues Msg.get_status
         Msg.update_path Msg.rank_clues truthy present msg_getitem bind fst].
    destruct b; cbn [truthy]; [|reflexivity].
    rewrite (rank_clues_ext (with_path other P) (with_path self P)
               Hkb eq_refl).
    now destruct (rank_clues (with_path self P)).
  - intros between Hb. rewrite Hupd.
    split; [now apply run_no_update|]. split.
    + intros other Hkb. rewrite Hupd, (run_no_update between _ Hb).
      rewrite rank_request_response.
      now rewrite (rank_clues_ext (with_path other P) (with_path self P)
                     Hkb eq_refl).
    + intros recs r. rewrite (run_no_update between _ Hb).
      rewrite rank_request_response.
      destruct (rank_clues (with_path self P)) as [resp|e] eqn:Hr;
        [|discriminate].
      intros -> Hin.
      destruct (proj2 (rank_clues_scores _ recs Hr r Hin))
        as (ty & c & d & Hpc & Hd & Hs).
      destruct (py_min_spec _ _ _ Hd) as [(p & Hp & Hdp) Hmin].
      exists ty, c, p, d. repeat split; auto.
Qed.

Lemma update_path_replaces_path_witness :
  snd (process_request
         (fst (process_request
                 {| kb := sample_clues; path := [(f1, f2); (f2, f1)];
                    status := "initialized" |}
                 (request_update_path origin_path)))
         (request_rank_clues true))
  = snd (process_request
           (fst (process_request (__init__ sample_clues)
                   (request_update_path origin_path)))
           (request_rank_clues true)) /\
  snd (process_request
         (run (fst (process_request
                      {| kb := sample_clues; path := [(f1, f2); (f2, f1)];
                         status := "initialized" |}
                      (request_update_path origin_path)))
              [request_get_status; request_rank_clues true;
               request_get_clues])
         (request_rank_clues true))
  = match rank_clues (with_path (__init__ sample_clues) origin_path) with
    | Ok r => r
    | Raise e => RespError (StrOf e)
    end.
Proof.
  pose proof (update_path_replaces_path (__init__ sample_clues)
                origin_path) as H.
  split.
  - exact (proj1 (proj2 (proj2 (proj2 (proj2 H))))
             {| kb := sample_clues; path := [(f1, f2); (f2, f1)];
                status := "initialized" |} true eq_refl).
  - refine (proj1 (proj2 (proj2 (proj2 (proj2 (proj2 (proj2 H))))
                            [request_get_status; request_rank_clues true;
                             request_get_clues] _))
              {| kb := sample_clues; path := [(f1, f2); (f2, f1)];
                 status := "initialized" |} eq_refl).
    repeat constructor.
Defined.

(** C8, as the code has it. The status field starts as ["initialized"]
    and no request changes it: an [update_path] request reports
    ["path updated"] in its own response only. After any sequence of
    requests a [get_status] request returns [{"status": "initialized"}]. *)
Theorem status_stays_initialized (kb0 : Clues) :
  status (__init__ kb0) = "initialized" /\
  (forall self message,
      status (fst (process_request self message)) = status self) /\
  (forall messages,
      snd (process_request (run (__init__ kb0) messages) request_get_status)
      = RespStatus "initialized") /\
  (forall messages P,
      snd (process_request (run (__init__ kb0) messages)
             (request_update_path P))
      = RespPathUpdated "path updated" (List.length P)).
Proof.
  assert (Hstep : forall self message,
             status (fst (process_request self message)) = status self).
  { intros self message. unfold process_request, process_request_try.
    destruct (truthy (Msg.get_clues message)); [reflexivity|].
    destruct (truthy (Msg.get_status message)); [reflexivity|].
    destruct (Msg.update_path message); [reflexivity|].
    cbn [present].
    destruct (truthy (Msg.rank_clues message)); [|reflexivity].
    now destruct (rank_clues self). }
  assert (Hrun : forall messages self,
             status (run self messages) = status self).
  { induction messages as [|m ms IH]; intros self; [reflexivity|].
    unfold run in *. simpl. now rewrite IH, Hstep. }
  repeat split.
  - exact Hstep.
  - intros messages. unfold process_request, process_request_try.
    cbn. now rewrite Hrun.
Qed.

(** C8 as stated fails: after an [update_path] request the status is still
    ["initialized"], not ["path updated"]. *)
Lemma status_after_update_path_counterexample :
  snd (process_request
         (fst (process_request (__init__ []) (request_update_path origin_path)))
         request_get_status)
  = RespStatus "initialized" /\
  RespStatus "initialized" <> RespStatus "path updated".
Proof. split; [reflexivity | discriminate]. Qed.

(** C9. On a path that is not empty [_min_distance_to_path] is not
    total: for the coordinate [(1e200, 0.0)] and the path [[(0, 0)]] the
    square of the difference is out of range and the call raises
    [OverflowError]. (The [ValueError] of an empty [min] is indeed out of
    reach: [min_distance_raise].) *)
Theorem min_distance_overflow :
  path (agent_at_origin []) = [(f0, f0)] /\
  _euclidean_distance (f1e200, f0) (f0, f0) = Raise OverflowError /\
  _min_distance_to_path (agent_at_origin []) (f1e200, f0)
  = Raise OverflowError.
Proof. repeat split; vm_compute; reflexivity. Qed.

(** C10. [process_request] tests the message in a fixed order: a true
    ["get_clues"], a true ["get_status"], the presence of ["update_path"]
    with any value, a true ["rank_clues"]. The first test that passes
    selects the handler, whatever other keys the message holds; when none
    passes the answer is [{"error": "Unknown request type"}], as for
    [{"rank_clues": false}]. *)
Theorem dispatch_order (self : ClueMeisterAgent) (message : Msg.ClueMessage) :
  (truthy (Msg.get_clues message) = true ->
   process_request self message = (self, RespClues (kb self))) /\
  (truthy (Msg.get_clues message) = false ->
   truthy (Msg.get_status message) = true ->
   process_request self message = (self, RespStatus (status self))) /\
  (forall P,
      truthy (Msg.get_clues message) = false ->
      truthy (Msg.get_status message) = false ->
      Msg.update_path message = Some P ->
      process_request self message
      = (with_path self P, RespPathUpdated "path updated" (List.length P))) /\
  (truthy (Msg.get_clues message) = false ->
   truthy (Msg.get_status message) = false ->
   Msg.update_path message = None ->
   truthy (Msg.rank_clues message) = true ->
   process_request self message
   = (self, match rank_clues self with
            | Ok r => r
            | Raise e => RespError (StrOf e)
            end)) /\
  (truthy (Msg.get_clues message) = false ->
   truthy (Msg.get_status message) = false ->
   Msg.update_path message = None ->
   truthy (Msg.rank_clues message) = false ->
   process_request self message
   = (self, RespError (Literal "Unknown request type"))) /\
  process_request self (request_rank_clues false)
  = (self, RespError (Literal "Unknown request type")) /\
  process_request self
    {| Msg.get_clues := Some false; Msg.get_status := None;
       Msg.update_path := Some []; Msg.rank_clues := Some true |}
  = (with_path self [], RespPathUpdated "path updated" 0).
Proof.
  unfold process_request, process_request_try.
  repeat split.
  - intros ->. reflexivity.
  - intros -> ->. reflexivity.
  - intros P -> -> ->. reflexivity.
  - intros -> -> -> ->. cbn [present].
    now destruct (rank_clues self).
  - intros -> -> -> ->. reflexivity.
Qed.

Lemma dispatch_order_witness :
  process_request (__init__ sample_clues)
    {| Msg.get_clues := Some true; Msg.get_status := Some true;
       Msg.update_path := Some origin_path; Msg.rank_clues := Some true |}
  = (__init__ sample_clues, RespClues sample_clues) /\
  process_request (__init__ sample_clues)
    {| Msg.get_clues := None; Msg.get_status := Some true;
       Msg.update_path := Some origin_path; Msg.rank_clues := Some true |}
  = (__init__ sample_clues, RespStatus "initialized").
Proof.
  split.
  - exact (proj1 (dispatch_order (__init__ sample_clues)
                    {| Msg.get_clues := Some true; Msg.get_status := Some true;
                       Msg.update_path := Some origin_path;
                       Msg.rank_clues := Some true |})
             eq_refl).
  - exact (proj1 (proj2 (dispatch_order (__init__ sample_clues)
                    {| Msg.get_clues := None; Msg.get_status := Some true;
                       Msg.update_path := Some origin_path;
                       Msg.rank_clues := Some true |}))
             eq_refl eq_refl).
Defined.
End Claims.

(* ================================================================== *)
(** * Further properties of the ranking agent *)

Section OrderFacts.
Context {A : Type} (key : A -> PyNum).

Lemma insert_desc_in (w : A) (l : list A) (z : A) :
  In z l -> In z (insert_desc key w l).
Proof.
  intros H. eapply Permutation_in; [|apply in_cons; exact H].
  symmetry. apply insert_desc_perm.
Qed.

Lemma sort_reverse_in (l : list A) (z : A) :
  In z l -> In z (sort_reverse key l).
Proof.
  intros H. eapply Permutation_in; [|exact H].
  symmetry. apply sort_reverse_perm.
Qed.

(** Inserting an item leaves the order of the others as it was. *)
Lemma insert_desc_keeps (w x z : A) (l : list A) :
  Precedes x z l -> Precedes x z (insert_desc key w l).
Proof.
  induction 1 as [l Hz|y l Hp IH]; simpl.
  - destruct (py_lt (key w) (key x)).
    + constructor 1. now apply insert_desc_in.
    + constructor 2. now constructor 1.
  - destruct (py_lt (key w) (key y)).
    + now constructor 2.
    + constructor 2. now constructor 2.
Qed.

(** The inserted item goes in front of every item it is not less than. *)
Lemma insert_desc_front (w z : A) (l : list A) :
  In z l -> py_lt (key w) (key z) = false ->
  Precedes w z (insert_desc key w l).
Proof.
  intros Hz Hlt. induction l as [|y l IH]; [contradiction|]. simpl.
  destruct (py_lt (key w) (key y)) eqn:E.
  - constructor 2. apply IH. destruct Hz as [->|Hz]; [congruence | exact Hz].
  - now constructor 1.
Qed.

(** The reverse sort moves an item behind a later one only when its key is
    less. *)
Lemma sort_reverse_stable (x z : A) (l : list A) :
  Precedes x z l -> py_lt (key x) (key z) = false ->
  Precedes x z (sort_reverse key l).
Proof.
  intros Hp Hlt. induction Hp as [l Hz|y l Hp IH]; simpl.
  - apply insert_desc_front; [now apply sort_reverse_in | exact Hlt].
  - now apply insert_desc_keeps.
Qed.
End OrderFacts.

Lemma Precedes_map {A B : Type} (f : A -> B) (x z : A) (l : list A) :
  Precedes x z l -> Precedes (f x) (f z) (map f l).
Proof.
  induction 1 as [l Hz|y l Hp IH]; simpl.
  - constructor 1. now apply in_map.
  - now constructor 2.
Qed.

Lemma Precedes_map_inv {A B : Type} (f : A -> B) (x z : B) (l : list A) :
  Precedes x z (map f l) ->
  exists x' z', f x' = x /\ f z' = z /\ Precedes x' z' l.
Proof.
  remember (map f l) as m eqn:E. intros H. revert l E.
  induction H as [m Hz|y m Hp IH]; intros l E.
  - destruct l as [|x' l]; [discriminate|]. simpl in E.
    injection E as -> ->. apply in_map_iff in Hz.
    destruct Hz as (z' & <- & Hz). exists x', z'.
    repeat split. now constructor 1.
  - destruct l as [|y' l]; [discriminate|]. simpl in E.
    injection E as -> ->.
    destruct (IH l eq_refl) as (x' & z' & Hx & Hz & Hp').
    exists x', z'. repeat split; try assumption. now constructor 2.
Qed.

Lemma Precedes_in {A : Type} (x z : A) (l : list A) :
  Precedes x z l -> In x l /\ In z l.
Proof.
  induction 1 as [l Hz|y l Hp [IHx IHz]]; simpl; auto.
Qed.

Section DistanceSymmetry.
Local Open Scope Z_scope.

Lemma abs_binary_round (prec emax : Z) (m : positive) (e : Z) :
  SFabs (binary_round prec emax true m e)
  = SFabs (binary_round prec emax false m e).
Proof.
  unfold binary_round, binary_round_aux.
  destruct (shl_align m e _) as [mz ez].
  destruct (shr_fexp prec emax (Z.pos mz) ez loc_Exact) as [mrs' e'].
  destruct (shr_fexp prec emax _ e' loc_Exact) as [mrs'' e''].
  destruct (shr_m mrs''); try reflexivity.
  now destruct (e'' <=? emax - prec).
Qed.

Lemma abs_binary_normalize_opp (prec emax : Z) (m e : Z) :
  SFabs (binary_normalize prec emax (- m) e false)
  = SFabs (binary_normalize prec emax m e false).
Proof.
  destruct m; simpl; [reflexivity | | symmetry]; apply abs_binary_round.
Qed.

(** [|a - b|] and [|b - a|] are the same float. *)
Lemma abs_sub_comm (a b : spec_float) :
  SFabs (F64.sub a b) = SFabs (F64.sub b a).
Proof.
  unfold F64.sub.
  destruct a as [sa|sa| |sa ma ea], b as [sb|sb| |sb mb eb];
    try reflexivity;
    try (destruct sa, sb; reflexivity);
    try (destruct sa; reflexivity);
    try (destruct sb; reflexivity).
  cbn [SFsub]. rewrite (Z.min_comm eb ea).
  set (x := cond_Zopp sa (Z.pos (fst (shl_align ma ea (Z.min ea eb))))).
  set (y := cond_Zopp sb (Z.pos (fst (shl_align mb eb (Z.min ea eb))))).
  replace (y - x) with (- (x - y)) by lia.
  symmetry. apply abs_binary_normalize_opp.
Qed.

(** A square depends on the magnitude only. *)
Lemma float_pow2_abs (x y : F64.float) :
  SFabs x = SFabs y -> float_pow2 x = float_pow2 y.
Proof.
  destruct x, y; simpl; try discriminate; try reflexivity.
  intros H. injection H as -> ->. reflexivity.
Qed.

Lemma euclidean_distance_comm (p q : Coord) :
  _euclidean_distance p q = _euclidean_distance q p.
Proof.
  unfold _euclidean_distance.
  rewrite (float_pow2_abs _ _ (abs_sub_comm (fst p) (fst q))).
  rewrite (float_pow2_abs _ _ (abs_sub_comm (snd p) (snd q))).
  reflexivity.
Qed.

Lemma sub_self (x : F64.float) :
  is_finite x = true -> F64.sub x x = S754_zero false.
Proof.
  unfold F64.sub. destruct x as [s|s| |s m e]; try discriminate; intros _.
  - now destruct s.
  - cbn [SFsub]. now rewrite Z.sub_diag.
Qed.

Lemma euclidean_distance_self (p : Coord) :
  finite_coord p = true -> _euclidean_distance p p = Ok (S754_zero false).
Proof.
  unfold finite_coord. intros H. apply andb_prop in H. destruct H as [Hx Hy].
  unfold _euclidean_distance. rewrite (sub_self _ Hx), (sub_self _ Hy).
  reflexivity.
Qed.
End DistanceSymmetry.

Section OverflowFacts.

Lemma min_rest_raises {A : Type} (f : A -> result F64.float) (e0 : PyExc)
  (ps : list A) :
  (forall p e, f p = Raise e -> e = e0) ->
  (exists p, In p ps /\ f p = Raise e0) ->
  forall cur, min_rest f cur ps = Raise e0.
Proof.
  intros Hall. induction ps as [|q ps IH]; intros (p & Hin & Hp) cur.
  - contradiction.
  - cbn [min_rest]. destruct (f q) as [d|e] eqn:Hq; cbn [bind].
    + apply IH. exists p. split; [|exact Hp].
      destruct Hin as [->|Hin]; [congruence | exact Hin].
    + now rewrite (Hall q e Hq).
Qed.

(** [_min_distance_to_path] raises exactly when the distance to some
    vertex does. *)
Lemma min_distance_overflow_iff (self : ClueMeisterAgent) (coord : Coord) :
  _min_distance_to_path self coord = Raise OverflowError <->
  exists p, In p (path self) /\ overflows coord p.
Proof.
  unfold _min_distance_to_path, overflows, py_min. split.
  - destruct (path self) as [|q ps]; [discriminate|].
    destruct (_euclidean_distance coord q) as [d|e] eqn:Hq; cbn [bind].
    + intros H. destruct (min_rest_raise _ _ _ _ H) as (p & Hin & Hp).
      exists p. split; [now right | exact Hp].
    + intros H. injection H as ->. exists q. split; [now left | exact Hq].
  - intros (p & Hin & Hp). destruct (path self) as [|q ps]; [contradiction|].
    destruct (_euclidean_distance coord q) as [d|e] eqn:Hq; cbn [bind].
    + apply min_rest_raises.
      * intros r e. apply euclidean_distance_raise.
      * exists p. split; [|exact Hp].
        destruct Hin as [->|Hin]; [congruence | exact Hin].
    + now rewrite (euclidean_distance_raise _ _ _ Hq).
Qed.

Lemma score_clue_overflow_iff (self : ClueMeisterAgent) (desc : string) :
  score_clue self desc = Raise OverflowError <->
  exists clue_type coord p,
    _parse_clue desc = Ok (clue_type, coord) /\
    In p (path self) /\ overflows coord p.
Proof.
  unfold score_clue. rewrite unknown_points.
  destruct (parse_clue_returns desc) as [[ty c] Hpc]. rewrite Hpc.
  cbn [bind]. split.
  - destruct (_min_distance_to_path self c) as [d|e] eqn:Hd; cbn [bind];
      [discriminate|].
    intros H. injection H as ->.
    apply min_distance_overflow_iff in Hd. destruct Hd as (p & Hin & Hp).
    now exists ty, c, p.
  - intros (ty' & c' & p & Heq & Hin & Hp). injection Heq as <- <-.
    assert (Hd : _min_distance_to_path self c = Raise OverflowError).
    { apply min_distance_overflow_iff. now exists p. }
    now rewrite Hd.
Qed.

Lemma score_clue_raise_any (self : ClueMeisterAgent) (desc : string)
  (e : PyExc) :
  score_clue self desc = Raise e ->
  e = OverflowError \/ (e = ValueError /\ path self = []).
Proof.
  destruct (path self) as [|p ps] eqn:Hp.
  - unfold score_clue, _min_distance_to_path. rewrite unknown_points, Hp.
    destruct (parse_clue_returns desc) as [[ty c] ->]. cbn [bind py_min].
    intros H. injection H as <-. now right.
  - intros H. left. apply (score_clue_raise self desc e); [|exact H].
    rewrite Hp. discriminate.
Qed.

Lemma rank_loop_raises (self : ClueMeisterAgent) (clues : Clues) :
  path self <> [] ->
  (exists cid desc,
      In (cid, desc) clues /\ score_clue self desc = Raise OverflowError) ->
  rank_loop self clues = Raise OverflowError.
Proof.
  intros Hp. induction clues as [|[c d] clues IH];
    intros (cid & desc & Hin & Hs); [contradiction|].
  cbn [rank_loop]. destruct (score_clue self d) as [s|e] eqn:Hd; cbn [bind].
  - rewrite IH; [reflexivity|]. exists cid, desc. split; [|exact Hs].
    destruct Hin as [Heq|Hin]; [|exact Hin].
    injection Heq as -> ->. congruence.
  - now rewrite (score_clue_raise self d e Hp Hd).
Qed.
End OverflowFacts.

Section SignFacts.
Local Open Scope Z_scope.

Lemma sub_finite_not_nan (a b : F64.float) :
  is_finite a = true -> is_finite b = true -> F64.sub a b <> S754_nan.
Proof.
  unfold F64.sub.
  destruct a as [sa|sa| |sa ma ea], b as [sb|sb| |sb mb eb];
    try discriminate; intros _ _; cbn [SFsub].
  - now destruct sa, sb.
  - apply binary_normalize_not_nan.
Qed.

Lemma float_pow2_sign (x r : F64.float) :
  x <> S754_nan -> float_pow2 x = Ok r -> has_sign false r.
Proof.
  intros Hx H. pose proof (float_pow2_outcome x) as Ho. rewrite H in Ho.
  destruct Ho as [->|Ho]; [|exact Ho].
  destruct x as [s|s| |s m e]; simpl in H; try discriminate;
    [congruence|].
  pose proof (binary_round_aux_sign F64.prec F64.emax false
                (Z.pos (m * m)) (e + e) loc_Exact ltac:(lia)) as Hs.
  unfold F64.mul in H. cbn [SFmul xorb] in H.
  destruct (binary_round_aux F64.prec F64.emax false (Z.pos (m * m)) (e + e)
              loc_Exact); simpl in Hs; try discriminate; contradiction.
Qed.

Lemma add_sign (a b : F64.float) :
  has_sign false a -> has_sign false b -> has_sign false (F64.add a b).
Proof.
  intros Ha Hb.
  destruct (add_nonneg_or_nan a b (or_intror Ha) (or_intror Hb)) as [E|H];
    [|exact H].
  exfalso. unfold F64.add in E.
  destruct a as [sa|sa| |sa ma ea]; simpl in Ha; try contradiction; subst sa;
    destruct b as [sb|sb| |sb mb eb]; simpl in Hb; try contradiction;
    subst sb; try discriminate.
  cbn [SFadd] in E. revert E. apply binary_normalize_not_nan.
Qed.

Lemma math_sqrt_sign (x r : F64.float) :
  has_sign false x -> math_sqrt x = Ok r -> has_sign false r.
Proof.
  intros Hx. unfold math_sqrt, F64.sqrt.
  destruct x as [s|s| |s m e]; simpl in Hx; try contradiction; subst s.
  - intros H. now injection H as <-.
  - intros H. now injection H as <-.
  - cbn [SFsqrt].
    destruct (SFsqrt_core_binary F64.prec F64.emax (Z.pos m) e)
      as [[mz ez] lz] eqn:E.
    assert (Hmz : 0 <= mz).
    { unfold SFsqrt_core_binary in E.
      match type of E with
      | (let (q, r) := Z.sqrtrem ?n in _) = _ =>
          pose proof (Z.sqrtrem_sqrt n) as Hq;
          pose proof (Z.sqrt_nonneg n) as Hn;
          destruct (Z.sqrtrem n) as [q r']
      end.
      cbn [fst] in Hq. injection E as <- _ _. rewrite Hq. exact Hn. }
    pose proof (binary_round_aux_sign F64.prec F64.emax false mz ez lz Hmz)
      as H.
    destruct (binary_round_aux F64.prec F64.emax false mz ez lz);
      simpl in H; try contradiction; intros E'; injection E' as <-;
      exact H.
Qed.

(** The distance of two finite points is a number with a clear sign bit. *)
Lemma euclidean_distance_sign (p q : Coord) (d : F64.float) :
  finite_coord p = true -> finite_coord q = true ->
  _euclidean_distance p q = Ok d -> has_sign false d.
Proof.
  unfold finite_coord. intros Hp Hq.
  apply andb_prop in Hp, Hq. destruct Hp as [Hp1 Hp2], Hq as [Hq1 Hq2].
  unfold _euclidean_distance.
  destruct (float_pow2 (F64.sub (fst p) (fst q))) as [dx2|e] eqn:Ex;
    cbn [bind]; [|discriminate].
  destruct (float_pow2 (F64.sub (snd p) (snd q))) as [dy2|e] eqn:Ey;
    cbn [bind]; [|discriminate].
  apply math_sqrt_sign, add_sign.
  - exact (float_pow2_sign _ _ (sub_finite_not_nan _ _ Hp1 Hq1) Ex).
  - exact (float_pow2_sign _ _ (sub_finite_not_nan _ _ Hp2 Hq2) Ey).
Qed.

Lemma not_above_zero (d : F64.float) :
  has_sign false d -> SFltb (S754_zero false) d = false ->
  d = S754_zero false.
Proof.
  destruct d as [s|s| |s m e]; simpl; try contradiction;
    intros ->; try discriminate. reflexivity.
Qed.

Lemma total_score_at_zero (clue_type : string) :
  total_score clue_type (S754_zero false)
  = py_add (PyInt (dict_get CLUE_TYPE_POINTS clue_type 5)) (PyFloat f100).
Proof. reflexivity. Qed.
End SignFacts.

Section StripFacts.
Local Open Scope string_scope.

Lemma str_rstrip_cons (c : ascii) (t : string) :
  is_space c = false -> str_rstrip (String c t) = String c (str_rstrip t).
Proof.
  intros H. cbn [str_rstrip]. rewrite H. now destruct (str_rstrip t).
Qed.

Lemma str_rstrip_idem (s : string) : str_rstrip (str_rstrip s) = str_rstrip s.
Proof.
  induction s as [|c t IH]; [reflexivity|].
  cbn [str_rstrip]. destruct (str_rstrip t) as [|c' r] eqn:E.
  - destruct (is_space c) eqn:Hc; [reflexivity|].
    cbn [str_rstrip]. now rewrite Hc.
  - cbn [str_rstrip]. cbn [str_rstrip] in IH. now rewrite IH.
Qed.

Lemma str_lstrip_head (s : string) :
  str_lstrip s = "" \/
  exists c t, str_lstrip s = String c t /\ is_space c = false.
Proof.
  induction s as [|c t IH]; [now left|].
  cbn [str_lstrip]. destruct (is_space c) eqn:Hc; [exact IH|].
  right. now exists c, t.
Qed.

(** Trimming a trimmed text changes nothing. *)
Lemma str_strip_idem (s : string) : str_strip (str_strip s) = str_strip s.
Proof.
  unfold str_strip.
  destruct (str_lstrip_head s) as [->|(c & t & -> & Hc)]; [reflexivity|].
  rewrite (str_rstrip_cons c t Hc). cbn [str_lstrip]. rewrite Hc.
  rewrite (str_rstrip_cons c _ Hc). now rewrite str_rstrip_idem.
Qed.
End StripFacts.

Section RankingProperties.
Local Open Scope string_scope.

(** On a path of float pairs [rank_clues] raises no exception but
    [OverflowError], and it raises it exactly when the path is not empty
    and, for some clue and some vertex of the path, a squared coordinate
    difference between the clue's parsed coordinate and the vertex is out
    of range. *)
Lemma rank_clues_raises_iff_overflow (self : ClueMeisterAgent) :
  (forall e, rank_clues self = Raise e -> e = OverflowError) /\
  (rank_clues self = Raise OverflowError <->
   path self <> [] /\
   exists cid desc clue_type coord p,
     In (cid, desc) (kb self) /\
     _parse_clue desc = Ok (clue_type, coord) /\
     In p (path self) /\
     _euclidean_distance coord p = Raise OverflowError).
Proof.
  split; [intros e H; now destruct (rank_clues_raise self e H)|].
  split.
  - intros H. destruct (rank_clues_raise self _ H) as [_ Hp].
    split; [exact Hp|].
    rewrite (rank_clues_nonempty self Hp) in H.
    destruct (rank_loop self (kb self)) as [r|e] eqn:Hl; [discriminate|].
    cbn [bind] in H. injection H as ->.
    destruct (rank_loop_raise self (kb self) _ Hl) as (c & d & Hin & Hs).
    apply score_clue_overflow_iff in Hs.
    destruct Hs as (ty & co & p & Hpc & Hpin & Hov).
    now exists c, d, ty, co, p.
  - intros (Hp & c & d & ty & co & p & Hin & Hpc & Hpin & Hov).
    rewrite (rank_clues_nonempty self Hp).
    rewrite (rank_loop_raises self (kb self) Hp); [reflexivity|].
    exists c, d. split; [exact Hin|].
    apply score_clue_overflow_iff. now exists ty, co, p.
Qed.

(** X2. A ranking that [rank_clues] returns holds the clues of the source,
    each once: its (id, description) pairs are a permutation of the
    mapping's items, so it has as many records as there are clues. *)
Theorem ranking_is_permutation (self : ClueMeisterAgent)
  (recs : list RankedClue) :
  rank_clues self = Ok (RespRanked recs) ->
  Permutation (map (fun r => (id r, description r)) recs) (kb self) /\
  List.length recs = List.length (kb self).
Proof.
  intros H. pose proof (rank_clues_permutation self recs H) as Hp.
  split; [exact Hp|].
  apply Permutation_length in Hp. now rewrite length_map in Hp.
Qed.

Lemma ranking_is_permutation_witness :
  exists recs,
    rank_clues (agent_at_origin sample_clues) = Ok (RespRanked recs) /\
    Permutation (map (fun r => (id r, description r)) recs) sample_clues /\
    List.length recs = 4%nat.
Proof.
  eexists. split; [vm_compute; reflexivity|].
  apply (ranking_is_permutation (agent_at_origin sample_clues)).
  vm_compute. reflexivity.
Defined.

(** X3. In a ranking that [rank_clues] returns, the score of every record
    is the points of the clue's parsed type (5 for a type that is not in the
    table) plus [max(0, 100 - d)], where [d] is what
    [_min_distance_to_path] returns for the clue's parsed coordinate. *)
Theorem ranking_scores_follow_formula (self : ClueMeisterAgent)
  (recs : list RankedClue) (r : RankedClue) :
  rank_clues self = Ok (RespRanked recs) ->
  In r recs ->
  exists clue_type coord distance,
    _parse_clue (description r) = Ok (clue_type, coord) /\
    _min_distance_to_path self coord = Ok distance /\
    score r
    = py_add (PyInt (dict_get CLUE_TYPE_POINTS clue_type 5))
             (py_max (PyInt 0) (py_sub (PyInt 100) (PyFloat distance))).
Proof.
  intros H Hr. exact (proj2 (rank_clues_scores self recs H r Hr)).
Qed.

Lemma ranking_scores_follow_formula_witness :
  exists clue_type coord distance,
    _parse_clue "red hat at 3,4" = Ok (clue_type, coord) /\
    _min_distance_to_path (agent_at_origin sample_clues) coord
    = Ok distance /\
    score (record_of 4 "red hat at 3,4" (total_score "red hat"
                                           (Prim2SF 5%float)))
    = py_add (PyInt (dict_get CLUE_TYPE_POINTS clue_type 5))
             (py_max (PyInt 0) (py_sub (PyInt 100) (PyFloat distance))).
Proof.
  refine (ranking_scores_follow_formula (agent_at_origin sample_clues) _
            (record_of 4 "red hat at 3,4"
               (total_score "red hat" (Prim2SF 5%float))) _ _).
  - vm_compute. reflexivity.
  - vm_compute. right. left. reflexivity.
Defined.

(** X4. What [_min_distance_to_path] returns is the distance to one of the
    path's vertices, and the distance to no vertex is less than it. *)
Theorem min_distance_is_minimum (self : ClueMeisterAgent) (coord : Coord)
  (d : F64.float) :
  _min_distance_to_path self coord = Ok d ->
  (exists p, In p (path self) /\ _euclidean_distance coord p = Ok d) /\
  forall p d',
    In p (path self) -> _euclidean_distance coord p = Ok d' ->
    F64.ltb d' d = false.
Proof. intros H. exact (py_min_spec _ _ _ H). Qed.

Lemma min_distance_is_minimum_witness :
  (exists p,
      In p [(f2, f2); (f1, f0); (f0, f2)] /\
      _euclidean_distance (f0, f0) p = Ok f1) /\
  forall p d',
    In p [(f2, f2); (f1, f0); (f0, f2)] ->
    _euclidean_distance (f0, f0) p = Ok d' ->
    F64.ltb d' f1 = false.
Proof.
  exact (min_distance_is_minimum
           {| kb := []; path := [(f2, f2); (f1, f0); (f0, f2)];
              status := "initialized" |}
           (f0, f0) f1 eq_refl).
Defined.

(** X5. [_euclidean_distance] is symmetric: the two points can be swapped,
    whether the call returns or raises. *)
Theorem euclidean_distance_symmetric (p q : Coord) :
  _euclidean_distance p q = _euclidean_distance q p.
Proof. apply euclidean_distance_comm. Qed.

(** X6. On a path of finite vertices, a clue whose parsed coordinate is
    finite and is one of the vertices has distance [0.0] and so the full
    bonus: whenever it is scored, its score is its type points plus
    [100.0]. *)
Theorem clue_on_vertex_full_bonus (self : ClueMeisterAgent) (desc : string)
  (clue_type : string) (coord : Coord) (s : PyNum) :
  (forall p, In p (path self) -> finite_coord p = true) ->
  In coord (path self) ->
  _parse_clue desc = Ok (clue_type, coord) ->
  score_clue self desc = Ok s ->
  _min_distance_to_path self coord = Ok (S754_zero false) /\
  s = py_add (PyInt (dict_get CLUE_TYPE_POINTS clue_type 5)) (PyFloat f100).
Proof.
  intros Hfin Hin Hpc Hs.
  apply score_clue_ok in Hs.
  destruct Hs as (ty & c & d & Hpc' & Hd & ->).
  rewrite Hpc in Hpc'. injection Hpc' as <- <-.
  destruct (py_min_spec _ _ _ Hd) as [(p & Hp & Hdp) Hmin].
  pose proof (euclidean_distance_sign coord p d
                (Hfin coord Hin) (Hfin p Hp) Hdp) as Hsign.
  pose proof (Hmin coord _ Hin (euclidean_distance_self coord (Hfin _ Hin)))
    as Hlow.
  rewrite (not_above_zero d Hsign Hlow) in *.
  split; [exact Hd | apply total_score_at_zero].
Qed.

Lemma clue_on_vertex_full_bonus_witness :
  _min_distance_to_path
    {| kb := []; path := [(f2, f2); (f1, f2)]; status := "initialized" |}
    (f1, f2) = Ok (S754_zero false) /\
  total_score "red hat" (S754_zero false)
  = py_add (PyInt (dict_get CLUE_TYPE_POINTS "red hat" 5)) (PyFloat f100).
Proof.
  refine (clue_on_vertex_full_bonus
            {| kb := []; path := [(f2, f2); (f1, f2)];
               status := "initialized" |}
            "red hat at 1,2" "red hat" (f1, f2) _ _ _ _ _).
  - intros p [<-|[<-|[]]]; reflexivity.
  - right. left. reflexivity.
  - vm_compute. reflexivity.
  - vm_compute. reflexivity.
Defined.

(** X7. The ranking keeps the order of the source among clues that tie, and
    more: a clue that stands before another in the source stands before it
    in the ranking unless its score is less. *)
Theorem ranking_keeps_source_order (self : ClueMeisterAgent)
  (recs : list RankedClue) (c1 c2 : Z) (d1 d2 : string) (s1 s2 : PyNum) :
  rank_clues self = Ok (RespRanked recs) ->
  Precedes (c1, d1) (c2, d2) (kb self) ->
  score_clue self d1 = Ok s1 ->
  score_clue self d2 = Ok s2 ->
  py_lt s1 s2 = false ->
  Precedes (record_of c1 d1 s1) (record_of c2 d2 s2) recs.
Proof.
  intros H Hp H1 H2 Hlt.
  destruct (rank_clues_ranked self recs H) as (_ & l & Hl & ->).
  destruct (rank_loop_ok self (kb self) l Hl) as [Hmap Hall].
  rewrite <- Hmap in Hp.
  apply Precedes_map_inv in Hp.
  destruct Hp as ([[x1 y1] t1] & [[x2 y2] t2] & E1 & E2 & Hp).
  cbn [fst] in E1, E2. injection E1 as -> ->. injection E2 as -> ->.
  destruct (Precedes_in _ _ _ Hp) as [In1 In2].
  rewrite Forall_forall in Hall.
  pose proof (Hall _ In1) as S1. pose proof (Hall _ In2) as S2.
  cbn [fst snd] in S1, S2.
  rewrite H1 in S1. rewrite H2 in S2.
  injection S1 as <-. injection S2 as <-.
  apply (Precedes_map to_record (c1, d1, s1) (c2, d2, s2)).
  now apply (sort_reverse_stable (fun x => snd x)).
Qed.

Lemma ranking_keeps_source_order_witness :
  exists recs,
    rank_clues (agent_at_origin [(8, "hat"); (3, "boot at 0,0")]%Z)
    = Ok (RespRanked recs) /\
    Precedes (record_of 8 "hat" (total_score "unknown" f0))
             (record_of 3 "boot at 0,0" (total_score "boot" f0)) recs.
Proof.
  eexists. split; [vm_compute; reflexivity|].
  apply (ranking_keeps_source_order
           (agent_at_origin [(8, "hat"); (3, "boot at 0,0")]%Z)).
  - vm_compute. reflexivity.
  - constructor 1. left. reflexivity.
  - vm_compute. reflexivity.
  - vm_compute. reflexivity.
  - vm_compute. reflexivity.
Defined.
End RankingProperties.

Section RequestProperties.
Local Open Scope string_scope.

(** X8. No request changes the clue source, over any sequence of
    requests; and a request changes the path only when it is an
    [update_path] request that is reached, that is when neither
    ["get_clues"] nor ["get_status"] is true in the message. *)
Theorem process_request_keeps_clues (self : ClueMeisterAgent)
  (message : Msg.ClueMessage) :
  kb (fst (process_request self message)) = kb self /\
  (forall messages, kb (run self messages) = kb self) /\
  (path (fst (process_request self message)) = path self \/
   truthy (Msg.get_clues message) = false /\
   truthy (Msg.get_status message) = false /\
   Msg.update_path message
   = Some (path (fst (process_request self message)))).
Proof.
  assert (Hstep : forall a m, kb (fst (process_request a m)) = kb a).
  { intros a m. unfold process_request, process_request_try.
    destruct (truthy (Msg.get_clues m)); [reflexivity|].
    destruct (truthy (Msg.get_status m)); [reflexivity|].
    destruct (Msg.update_path m); [reflexivity|]. cbn [present].
    destruct (truthy (Msg.rank_clues m)); [|reflexivity].
    now destruct (rank_clues a). }
  split; [apply Hstep|]. split.
  - intros messages. revert self.
    induction messages as [|m ms IH]; intros self; [reflexivity|].
    unfold run in *. simpl. now rewrite IH, Hstep.
  - unfold process_request, process_request_try.
    destruct (truthy (Msg.get_clues message)); [now left|].
    destruct (truthy (Msg.get_status message)); [now left|].
    destruct (Msg.update_path message) as [P|]; [now right|].
    cbn [present]. left.
    destruct (truthy (Msg.rank_clues message)); [|reflexivity].
    now destruct (rank_clues self).
Qed.

(** On messages that keep the declared types, an error response of
    [process_request] is one of three: the literal
    ["Unknown request type"]; the literal ["Path is not set"], on an empty
    path; or the text of a caught [OverflowError], on a path that is not
    empty. *)
Lemma error_responses_classified (self : ClueMeisterAgent)
  (message : Msg.ClueMessage) (msg : ErrorText) :
  snd (process_request self message) = RespError msg ->
  msg = Literal "Unknown request type" \/
  (msg = Literal "Path is not set" /\ path self = []) \/
  (msg = StrOf OverflowError /\ path self <> []).
Proof.
  unfold process_request, process_request_try.
  destruct (truthy (Msg.get_clues message)); [discriminate|].
  destruct (truthy (Msg.get_status message)); [discriminate|].
  destruct (Msg.update_path message); [discriminate|]. cbn [present].
  destruct (truthy (Msg.rank_clues message)).
  - destruct (rank_clues self) as [r|e] eqn:H; cbn [bind snd].
    + intros ->. right. left.
      unfold rank_clues in H. destruct (path self) as [|p ps].
      * injection H as <-. now split.
      * destruct (rank_loop _ _); discriminate.
    + intros E. injection E as <-. right. right.
      destruct (rank_clues_raise self e H) as [-> Hp]. now split.
  - cbn [snd]. intros E. injection E as <-. now left.
Qed.


(** X10. After an [update_path] request with the list [P], a [rank_clues]
    request answers [{"error": "Path is not set"}] exactly when [P] is
    empty: an empty list unsets the path. *)
Theorem empty_path_update_unsets_ranking (self : ClueMeisterAgent)
  (P : list Coord) :
  snd (process_request
         (fst (process_request self (request_update_path P)))
         (request_rank_clues true))
  = RespError (Literal "Path is not set") <->
  P = [].
Proof.
  unfold process_request, process_request_try.
  cbn [request_update_path request_rank_clues Msg.get_clues Msg.get_status
       Msg.update_path Msg.rank_clues truthy present msg_getitem bind fst].
  destruct P as [|p ps].
  - now split.
  - split; [|discriminate].
    destruct (rank_clues (with_path self (p :: ps))) as [r|e] eqn:H;
      cbn [bind snd].
    + intros ->. apply rank_clues_path_not_set in H. discriminate.
    + discriminate.
Qed.

(** X11. The type [_parse_clue] returns has no whitespace at either end:
    trimming it again changes nothing, so the lookup in the points table
    sees the type without the blanks written around it. *)
Theorem parsed_type_is_trimmed (desc clue_type : string) (coord : Coord) :
  _parse_clue desc = Ok (clue_type, coord) ->
  str_strip clue_type = clue_type.
Proof.
  destruct (str_partition " at " desc) as [[b a]|] eqn:Hp.
  - rewrite (parse_clue_present desc b a Hp).
    intros H. injection H as <- _. apply str_strip_idem.
  - rewrite (parse_clue_absent desc Hp).
    intros H. injection H as <- _. reflexivity.
Qed.

Lemma parsed_type_is_trimmed_witness :
  _parse_clue "  red hat  at 1,2" = Ok ("red hat", (f1, f2)) /\
  str_strip "red hat" = "red hat".
Proof.
  split; [vm_compute; reflexivity|].
  apply (parsed_type_is_trimmed "  red hat  at 1,2" "red hat" (f1, f2)).
  vm_compute. reflexivity.
Defined.
End RequestProperties.

(* ================================================================== *)
(** * Properties of ClueMeisterAgentV2 *)

Section DigitFacts.
Local Open Scope string_scope.
Local Open Scope Z_scope.

Lemma digit_val_facts (c : ascii) (d : Z) :
  digit_val c = Some d ->
  0 <= d /\ is_space c = false /\
  Ascii.eqb c "-" = false /\ Ascii.eqb c "+" = false.
Proof.
  destruct c as [[] [] [] [] [] [] [] []]; vm_compute;
    intros H; try discriminate H; injection H as <-;
    repeat split; discriminate.
Qed.

(** On a text of digits the digit part is the whole text, and the count is
    its length. *)
Lemma digits_tail_all (s : string) :
  forall m n,
    all_digits s = true -> 0 <= m ->
    exists m',
      digits_tail m n s = (m', n + Z.of_nat (String.length s), "") /\
      0 <= m'.
Proof.
  induction s as [|c s IH]; intros m n Hs Hm.
  - exists m. cbn [digits_tail String.length]. now rewrite Z.add_0_r.
  - cbn [all_digits] in Hs. cbn [digits_tail].
    destruct (digit_val c) as [d|] eqn:Hc; [|discriminate].
    destruct (digit_val_facts c d Hc) as [Hd _].
    destruct (IH (10 * m + d) (n + 1) Hs ltac:(lia)) as (m' & -> & Hm').
    exists m'. split; [|exact Hm']. cbn [String.length]. do 2 f_equal. lia.
Qed.

Lemma all_digits_rstrip (s : string) :
  all_digits s = true -> str_rstrip s = s.
Proof.
  induction s as [|c s IH]; [reflexivity|]. cbn [all_digits].
  destruct (digit_val c) as [d|] eqn:Hc; [|discriminate]. intros Hs.
  destruct (digit_val_facts c d Hc) as (_ & Hsp & _).
  rewrite (str_rstrip_cons c s Hsp). now rewrite IH.
Qed.

Lemma all_digits_strip (s : string) :
  all_digits s = true -> str_strip s = s.
Proof.
  intros Hs. unfold str_strip. destruct s as [|c s]; [reflexivity|].
  cbn [all_digits] in Hs. cbn [str_lstrip].
  destruct (digit_val c) as [d|] eqn:Hc; [|discriminate].
  destruct (digit_val_facts c d Hc) as (_ & -> & _).
  apply all_digits_rstrip. cbn [all_digits]. now rewrite Hc.
Qed.

Lemma digit_not_num_space (c : ascii) (d : Z) :
  digit_val c = Some d -> is_num_space c = false.
Proof.
  destruct c as [[] [] [] [] [] [] [] []]; vm_compute;
    intros H; try discriminate H; reflexivity.
Qed.

Lemma num_space_is_space (c : ascii) :
  is_num_space c = true -> is_space c = true.
Proof.
  destruct c as [[] [] [] [] [] [] [] []]; vm_compute;
    intros H; try discriminate H; reflexivity.
Qed.


Lemma num_rstrip_cons (c : ascii) (t : string) :
  is_num_space c = false -> num_rstrip (String c t) = String c (num_rstrip t).
Proof.
  intros H. cbn [num_rstrip]. rewrite H. now destruct (num_rstrip t).
Qed.

Lemma all_digits_num_rstrip (s : string) :
  all_digits s = true -> num_rstrip s = s.
Proof.
  induction s as [|c s IH]; [reflexivity|]. cbn [all_digits].
  destruct (digit_val c) as [d|] eqn:Hc; [|discriminate]. intros Hs.
  rewrite (num_rstrip_cons c s (digit_not_num_space c d Hc)).
  now rewrite IH.
Qed.

(** [int] drops nothing from a text of digits. *)
Lemma all_digits_num_strip (s : string) :
  all_digits s = true -> num_strip s = s.
Proof.
  intros Hs. unfold num_strip. destruct s as [|c s]; [reflexivity|].
  cbn [all_digits] in Hs. cbn [num_lstrip].
  destruct (digit_val c) as [d|] eqn:Hc; [|discriminate].
  rewrite (digit_not_num_space c d Hc).
  apply all_digits_num_rstrip. cbn [all_digits]. now rewrite Hc.
Qed.





(** [int] of a text of digits: within the limit it returns a number that
    is not negative, and beyond the limit it raises. *)
Lemma py_int_digits (s : string) :
  str_isdigit s = true ->
  if int_max_str_digits <? Z.of_nat (String.length s)
  then py_int s = Raise ValueError
  else exists n, py_int s = Ok n /\ 0 <= n.
Proof.
  intros H. destruct s as [|c s]; [discriminate|].
  cbn [str_isdigit] in H. unfold py_int.
  rewrite (all_digits_num_strip _ H). cbn [all_digits] in H.
  destruct (digit_val c) as [d|] eqn:Hc; [|discriminate].
  destruct (digit_val_facts c d Hc) as (Hd & _ & Hm & Hp).
  cbn [read_sign]. rewrite Hm, Hp. cbn [digitpart]. rewrite Hc.
  destruct (digits_tail_all s (10 * 0 + d) 1 H ltac:(lia))
    as (m' & -> & Hm').
  replace (1 + Z.of_nat (String.length s))
    with (Z.of_nat (String.length (String c s)))
    by (cbn [String.length]; lia).
  destruct (int_max_str_digits <? _); [reflexivity | now exists m'].
Qed.

Lemma py_int_isdigit (s : string) :
  str_isdigit s = true ->
  Z.of_nat (String.length s) <= int_max_str_digits ->
  exists n, py_int s = Ok n /\ 0 <= n.
Proof.
  intros H Hl. pose proof (py_int_digits s H) as Hd.
  destruct (Z.ltb_spec int_max_str_digits (Z.of_nat (String.length s)));
    [lia | exact Hd].
Qed.




Lemma digits_tail_sign (k : nat) :
  forall s m n,
    (String.length s <= k)%nat -> 0 <= m ->
    0 <= fst (fst (digits_tail m n s)).
Proof.
  induction k as [|k IH]; intros s m n Hk Hm.
  - destruct s; [exact Hm | cbn [String.length] in Hk; lia].
  - destruct s as [|c s]; [exact Hm|]. cbn [String.length] in Hk.
    cbn [digits_tail]. destruct (digit_val c) as [d|] eqn:Hc.
    + apply IH; [lia|]. destruct (digit_val_facts c d Hc) as [Hd _]. lia.
    + destruct (Ascii.eqb c "_"); [|exact Hm].
      destruct s as [|c2 s2]; [exact Hm|].
      destruct (digit_val c2) as [d2|] eqn:Hc2; [|exact Hm].
      destruct (digit_val_facts c2 d2 Hc2) as [Hd _].
      apply IH; [cbn [String.length] in Hk; lia | lia].
Qed.

(** A negative result of [int] comes from a minus sign at the start of
    the number. *)
Lemma py_int_negative (s : string) (n : Z) :
  py_int s = Ok n -> n < 0 -> exists t, num_strip s = String "-" t.
Proof.
  unfold py_int. destruct (num_strip s) as [|c t] eqn:Hs.
  - cbn [read_sign digitpart]. discriminate.
  - cbn [read_sign]. destruct (Ascii.eqb_spec c "-") as [->|Hne].
    + intros _ _. now exists t.
    + assert (forall body,
                 match digitpart 0 body with
                 | Some (n0, k, "") =>
                     if int_max_str_digits <? k then Raise ValueError
                     else Ok n0
                 | _ => Raise ValueError
                 end = Ok n -> 0 <= n) as Hpos.
      { intros body. destruct body as [|b body]; [discriminate|].
        cbn [digitpart]. destruct (digit_val b) as [d|] eqn:Hb;
          [|discriminate].
        destruct (digit_val_facts b d Hb) as [Hd _].
        pose proof (digits_tail_sign (String.length body) body
                      (10 * 0 + d) 1 (le_n _) ltac:(lia)) as Hs'.
        destruct (digits_tail (10 * 0 + d) 1 body) as [[n0 k] r].
        cbn [fst] in Hs'. destruct r; [|discriminate].
        destruct (int_max_str_digits <? k); [discriminate|].
        intros H. injection H as <-. exact Hs'. }
      destruct (Ascii.eqb c "+"); intros H Hn;
        apply Hpos in H; lia.
Qed.

Lemma num_rstrip_head (s : string) (c : ascii) (t : string) :
  num_rstrip s = String c t -> exists t', s = String c t'.
Proof.
  destruct s as [|a s]; [discriminate|]. cbn [num_rstrip].
  destruct (num_rstrip s).
  - destruct (is_num_space a); [discriminate|].
    intros H. injection H as <- _. now exists s.
  - intros H. injection H as <- _. now exists s.
Qed.

Lemma num_lstrip_str_lstrip (s : string) (c : ascii) (t : string) :
  num_lstrip s = String c t -> is_space c = false ->
  str_lstrip s = String c t.
Proof.
  induction s as [|a s IH]; [discriminate|]. cbn [num_lstrip str_lstrip].
  destruct (is_num_space a) eqn:Ha.
  - rewrite (num_space_is_space a Ha). exact IH.
  - intros H Hc. injection H as -> ->. now rewrite Hc.
Qed.

(** What [int] returns for a text whose trimmed form is digits is not
    negative. *)
Lemma py_int_isdigit_sign (s : string) (n : Z) :
  str_isdigit (str_strip s) = true -> py_int s = Ok n -> 0 <= n.
Proof.
  intros H Hn. destruct (Z.lt_ge_cases n 0) as [Hneg|Hpos]; [|exact Hpos].
  destruct (py_int_negative s n Hn Hneg) as (t & Ht).
  unfold num_strip in Ht.
  destruct (num_rstrip_head _ _ _ Ht) as (t' & Hl).
  apply num_lstrip_str_lstrip in Hl; [|reflexivity].
  unfold str_strip in H. rewrite Hl in H.
  rewrite str_rstrip_cons in H by reflexivity. discriminate H.
Qed.

Lemma span_digits_all (s : string) :
  all_digits (fst (span_digits s)) = true.
Proof.
  induction s as [|c s IH]; [reflexivity|]. cbn [span_digits].
  destruct (digit_val c) as [d|] eqn:Hc; [|reflexivity].
  destruct (span_digits s) as [ds r]. cbn [fst all_digits] in *.
  now rewrite Hc.
Qed.

(** The first group of a cluster line is a text of digits. *)
Lemma match_cluster_digits (line g1 g2 : string) :
  match_cluster line = Some (g1, g2) -> str_isdigit g1 = true.
Proof.
  unfold match_cluster. destruct (prefix "Cluster " line); [|discriminate].
  pose proof (span_digits_all (str_drop 8 line)) as Hd.
  destruct (span_digits (str_drop 8 line)) as [ds r]. cbn [fst] in Hd.
  destruct ds as [|c ds]; [discriminate|].
  destruct (prefix ": [" r); [|discriminate].
  destruct (break_at "]" (str_drop 3 r)) as [[g _]|]; [|discriminate].
  intros H. injection H as <- _. exact Hd.
Qed.

Lemma findall_from_digits (s : string) :
  forall k, Forall (fun ds => str_isdigit ds = true) (findall_from k s).
Proof.
  induction s as [|c s IH]; intros k; [constructor|].
  cbn [findall_from]. destruct k as [|k]; [|apply IH].
  destruct (Ascii.eqb c "!"); [|apply IH].
  pose proof (span_digits_all s) as Hd.
  destruct (span_digits s) as [ds r]. cbn [fst] in Hd.
  destruct ds as [|d ds]; [apply IH|].
  destruct r as [|c' r]; [apply IH|].
  destruct (Ascii.eqb c' "!"); [|apply IH].
  constructor; [exact Hd | apply IH].
Qed.
End DigitFacts.

Section LengthFacts.
Local Open Scope string_scope.
Local Open Scope nat_scope.





Lemma span_digits_length (s : string) :
  String.length (fst (span_digits s)) + String.length (snd (span_digits s))
  = String.length s.
Proof.
  induction s as [|c s IH]; [reflexivity|]. cbn [span_digits].
  destruct (digit_val c); [|reflexivity].
  destruct (span_digits s) as [ds r]. cbn [fst snd String.length] in *. lia.
Qed.






(** A match of the flag pattern is shorter than the text. *)
Lemma findall_from_length (s : string) :
  forall k,
    Forall (fun ds => String.length ds <= String.length s)
           (findall_from k s).
Proof.
  induction s as [|c s IH]; intros k; [constructor|].
  assert (forall k, Forall (fun ds => String.length ds
                                      <= String.length (String c s))
                           (findall_from k s)) as IH'.
  { intros k'. eapply Forall_impl; [|apply IH]. intros p Hp.
    cbn [String.length] in *. lia. }
  cbn [findall_from]. destruct k as [|k]; [|apply IH'].
  destruct (Ascii.eqb c "!"); [|apply IH'].
  pose proof (span_digits_length s) as Hd.
  destruct (span_digits s) as [ds r]. cbn [fst snd] in Hd.
  destruct ds as [|d ds]; [apply IH'|].
  destruct r as [|c' r]; [apply IH'|].
  destruct (Ascii.eqb c' "!"); [|apply IH'].
  constructor; [|apply IH']. cbn [String.length] in *. lia.
Qed.
End LengthFacts.

Section CharFacts.
Local Open Scope string_scope.
Context (P : ascii -> bool).








End CharFacts.

Section LineFacts.
Local Open Scope string_scope.




End LineFacts.

Section ExtractFacts.
Local Open Scope string_scope.
Local Open Scope list_scope.

Lemma str_in_false (x : string) (xs : list string) :
  str_in x xs = false -> ~ In x xs.
Proof.
  unfold str_in. intros H Hin.
  assert (existsb (String.eqb x) xs = true) as E.
  { apply existsb_exists. exists x. split; [exact Hin|].
    apply String.eqb_refl. }
  congruence.
Qed.

Lemma NoDup_snoc {A : Type} (l : list A) (x : A) :
  NoDup l -> ~ In x l -> NoDup (l ++ [x]).
Proof.
  induction l as [|y l IH]; intros Hl Hx; simpl.
  - constructor; [easy | constructor].
  - inversion Hl as [|? ? Hy Hl']; subst. constructor.
    + intros Hin. apply in_app_or in Hin. destruct Hin as [Hin|[->|[]]].
      * contradiction.
      * apply Hx. now left.
    + apply IH; [exact Hl'|]. intros Hin. apply Hx. now right.
Qed.

(** What one line does to the list: nothing, or one new clue at its end. *)
Lemma extract_line_cases (found : list string) (line : string) :
  V2.extract_line found line = found \/
  (V2.extract_line found line
   = found ++ [str_strip (str_remove "Clue:" line)] /\
   str_startswith line "Clue:" = true /\
   str_strip (str_remove "Clue:" line) <> "" /\
   ~ In (str_strip (str_remove "Clue:" line)) found).
Proof.
  unfold V2.extract_line.
  destruct (str_startswith line "Clue:"); [|now left].
  destruct (str_strip (str_remove "Clue:" line)) as [|c t] eqn:E;
    [now left|].
  destruct (str_in (String c t) found) eqn:Hin; [now left|].
  right. repeat split; [discriminate | now apply str_in_false].
Qed.

Lemma extract_line_clean (found : list string) (line : string) :
  clean_clues found -> clean_clues (V2.extract_line found line).
Proof.
  intros [Hnd Hall].
  destruct (extract_line_cases found line) as [->|(-> & _ & Hne & Hnin)];
    [now split|].
  split; [now apply NoDup_snoc|].
  apply Forall_app. split; [exact Hall|].
  constructor; [|constructor]. split; [exact Hne | apply str_strip_idem].
Qed.

(** The clues of the list stay, in their order, and what is added was read
    from a line of the reply. *)
Lemma extract_lines_grow (lines : list string) :
  forall found,
    exists added,
      fold_left V2.extract_line lines found = found ++ added /\
      forall c, In c added ->
        exists line,
          In line lines /\ str_startswith line "Clue:" = true /\
          c = str_strip (str_remove "Clue:" line).
Proof.
  induction lines as [|line lines IH]; intros found.
  - exists []. split; [now rewrite app_nil_r | intros c []].
  - cbn [fold_left].
    destruct (IH (V2.extract_line found line)) as (added & -> & Hadd).
    destruct (extract_line_cases found line) as [->|(-> & Hst & _)].
    + exists added. split; [reflexivity|].
      intros c Hc. destruct (Hadd c Hc) as (l & Hl & H).
      exists l. split; [now right | exact H].
    + exists (str_strip (str_remove "Clue:" line) :: added).
      split; [now rewrite <- app_assoc|].
      intros c [<-|Hc].
      * exists line. split; [now left|]. now split.
      * destruct (Hadd c Hc) as (l & Hl & H).
        exists l. split; [now right | exact H].
Qed.

Lemma extract_reply_clean (found : list string) (reply : string) :
  clean_clues found -> clean_clues (V2.extract_reply found reply).
Proof.
  unfold V2.extract_reply. generalize (str_splitlines reply) as lines.
  intros lines. revert found.
  induction lines as [|line lines IH]; intros found H; [exact H|].
  cbn [fold_left]. apply IH. now apply extract_line_clean.
Qed.

Lemma extract_loop_clean (replies : list string) :
  forall start found,
    clean_clues start ->
    V2.extract_loop replies start = Some found ->
    clean_clues found /\
    exists added,
      found = start ++ added /\
      forall c, In c added -> read_from replies c.
Proof.
  induction replies as [|reply rest IH]; intros start found Hc H;
    [discriminate|].
  cbn [V2.extract_loop] in H.
  destruct (negb (str_contains "Clue:" reply)).
  - injection H as <-. split; [exact Hc|].
    exists []. split; [now rewrite app_nil_r | intros c []].
  - destruct (IH _ _ (extract_reply_clean start reply Hc) H)
      as (Hclean & added & -> & Hadd).
    split; [exact Hclean|].
    unfold V2.extract_reply in *.
    destruct (extract_lines_grow (str_splitlines reply) start)
      as (added0 & E0 & Hadd0).
    rewrite E0. exists (added0 ++ added).
    split; [now rewrite app_assoc|].
    intros c Hin. apply in_app_or in Hin. destruct Hin as [Hin|Hin].
    + destruct (Hadd0 c Hin) as (line & Hl & Hst & Heq).
      exists reply, line. repeat split; auto. now left.
    + destruct (Hadd c Hin) as (r & line & Hr & Hl & Hst & Heq).
      exists r, line. repeat split; auto. now right.
Qed.

Lemma extract_loop_ends (replies : list string) :
  forall found,
    V2.extract_loop replies found <> None <->
    exists r, In r replies /\ str_contains "Clue:" r = false.
Proof.
  induction replies as [|reply rest IH]; intros found.
  - split; [intros H; now elim H | intros (r & [] & _)].
  - cbn [V2.extract_loop].
    destruct (str_contains "Clue:" reply) eqn:Hc; cbn [negb].
    + rewrite IH. split.
      * intros (r & Hr & H). exists r. split; [now right | exact H].
      * intros (r & [<-|Hr] & H); [congruence|]. now exists r.
    + split; [|discriminate]. intros _. exists reply. split; [now left|].
      exact Hc.
Qed.

Lemma extract_loop_unused (before : list string) :
  forall r after found,
    str_contains "Clue:" r = false ->
    V2.extract_loop (before ++ r :: after) found
    = V2.extract_loop (before ++ [r]) found.
Proof.
  induction before as [|b before IH]; intros r after found Hr.
  - cbn [app V2.extract_loop]. now rewrite Hr.
  - cbn [app V2.extract_loop].
    destruct (negb (str_contains "Clue:" b)); [reflexivity|].
    now apply IH.
Qed.

Lemma extract_reply_no_line (found : list string) (reply : string) :
  (forall line, In line (str_splitlines reply) ->
                str_startswith line "Clue:" = false) ->
  V2.extract_reply found reply = found.
Proof.
  unfold V2.extract_reply. generalize (str_splitlines reply) as lines.
  induction lines as [|line lines IH]; intros H; [reflexivity|].
  cbn [fold_left]. unfold V2.extract_line at 2.
  rewrite (H line (or_introl eq_refl)). apply IH.
  intros l Hl. apply H. now right.
Qed.
End ExtractFacts.

Section ClusterFacts.
Local Open Scope string_scope.
Local Open Scope list_scope.
Local Open Scope Z_scope.


Lemma py_str_returns (n : Z) (t : string) :
  py_str n = Ok t -> Z.abs n < 10 ^ int_max_str_digits.
Proof.
  unfold py_str.
  destruct (Z.leb_spec (10 ^ int_max_str_digits) (Z.abs n));
    [discriminate | trivial].
Qed.

Lemma py_str_raise (n : Z) (e : PyExc) :
  py_str n = Raise e -> e = ValueError.
Proof.
  unfold py_str. destruct (10 ^ int_max_str_digits <=? Z.abs n);
    intros H; [injection H as <-; reflexivity | discriminate].
Qed.



Lemma dict_setitem_key {V : Type} (d : list (Z * V)) (key : Z) (value : V)
  (x : Z) :
  In x (map fst (V2.dict_setitem d key value)) <->
  x = key \/ In x (map fst d).
Proof.
  induction d as [|[k v] d IH]; cbn [V2.dict_setitem map fst In].
  - intuition congruence.
  - destruct (Z.eqb_spec k key) as [->|Hne]; cbn [map fst In].
    + intuition congruence.
    + rewrite IH. intuition congruence.
Qed.

Lemma dict_setitem_NoDup {V : Type} (d : list (Z * V)) (key : Z)
  (value : V) :
  NoDup (map fst d) -> NoDup (map fst (V2.dict_setitem d key value)).
Proof.
  induction d as [|[k v] d IH]; cbn [V2.dict_setitem map fst]; intros H.
  - constructor; [easy | constructor].
  - inversion H as [|? ? Hk Hd]; subst.
    destruct (Z.eqb_spec k key) as [->|Hne]; cbn [map fst].
    + now constructor.
    + constructor; [|now apply IH].
      rewrite dict_setitem_key. intros [->|Hin]; [now apply Hne | easy].
Qed.

Lemma dict_setitem_Forall {V : Type} (P : Z * V -> Prop)
  (d : list (Z * V)) (key : Z) (value : V) :
  Forall P d -> P (key, value) -> Forall P (V2.dict_setitem d key value).
Proof.
  induction 1 as [|[k v] d Hk Hd IH]; intros Hp; cbn [V2.dict_setitem].
  - constructor; [exact Hp | constructor].
  - destruct (k =? key); constructor; auto.
Qed.

Lemma dict_setitem_good (acc : V2.Clusters) (cid : Z) (ids : list Z) :
  good_clusters acc -> 0 <= cid -> Forall (Z.le 0) ids ->
  good_clusters (V2.dict_setitem acc cid ids).
Proof.
  intros [Hnd Hall] Hc Hi. split.
  - now apply dict_setitem_NoDup.
  - apply dict_setitem_Forall; [exact Hall | now split].
Qed.

Lemma cluster_ids_sign (items : list string) :
  forall ids, V2.cluster_ids items = Ok ids -> Forall (Z.le 0) ids.
Proof.
  induction items as [|i items IH]; intros ids; cbn [V2.cluster_ids].
  - intros H. injection H as <-. constructor.
  - destruct (str_isdigit (str_strip i)) eqn:Hd; [|apply IH].
    destruct (py_int i) as [n|] eqn:Hn; cbn [bind]; [|discriminate].
    destruct (V2.cluster_ids items) as [ns|]; cbn [bind]; [|discriminate].
    intros H. injection H as <-. constructor; [|now apply IH].
    now apply (py_int_isdigit_sign i).
Qed.



Lemma short_le (a b : string) :
  (String.length a <= String.length b)%nat -> short b -> short a.
Proof. unfold short. lia. Qed.

(** The clusters the loop returns: one entry for a number, nothing
    negative, and every number from the start or from a line. *)
Lemma cluster_lines_good (lines : list string) :
  forall acc cl,
    V2.cluster_lines lines acc = Ok cl -> good_clusters acc ->
    good_clusters cl /\
    forall cid, In cid (map fst cl) ->
      In cid (map fst acc) \/
      exists line g1 g2,
        In line lines /\ match_cluster line = Some (g1, g2) /\
        py_int g1 = Ok cid.
Proof.
  induction lines as [|line lines IH]; intros acc cl; cbn [V2.cluster_lines].
  - intros H Hg. injection H as <-. split; [exact Hg | now left].
  - destruct (match_cluster line) as [[g1 g2]|] eqn:Hm.
    + destruct (py_int g1) as [cid|] eqn:Hc; cbn [bind]; [|discriminate].
      destruct (V2.cluster_ids (str_split "," g2)) as [ids|] eqn:Hi;
        cbn [bind]; [|discriminate].
      intros H Hg.
      assert (0 <= cid) as Hpos.
      { apply (py_int_isdigit_sign g1); [|exact Hc].
        rewrite all_digits_strip; [now apply match_cluster_digits in Hm|].
        apply match_cluster_digits in Hm. destruct g1; [discriminate|].
        exact Hm. }
      destruct (IH _ _ H (dict_setitem_good acc cid ids Hg Hpos
                            (cluster_ids_sign _ _ Hi))) as [Hgood Hkeys].
      split; [exact Hgood|]. intros k Hk.
      destruct (Hkeys k Hk) as [Hin|(l & a & b & Hl & Hml & Hk')].
      * apply dict_setitem_key in Hin. destruct Hin as [->|Hin];
          [|now left].
        right. exists line, g1, g2. repeat split; auto. now left.
      * right. exists l, a, b. repeat split; auto. now right.
    + intros H Hg. destruct (IH _ _ H Hg) as [Hgood Hkeys].
      split; [exact Hgood|]. intros k Hk.
      destruct (Hkeys k Hk) as [Hin|(l & a & b & Hl & Hml & Hk')];
        [now left|].
      right. exists l, a, b. repeat split; auto. now right.
Qed.



Lemma good_clusters_nil : good_clusters [].
Proof. split; constructor. Qed.

Section WithCollaborators.
Context (E : V2.Collaborators).

Lemma cluster_clues_returns (reply : string) (self : V2.ClueMeisterAgent E)
  (out : V2.ClueMeisterAgent E * V2.Response) :
  V2.cluster_clues E reply self = Ok out ->
  exists cl,
    out = ({| V2.kb := V2.kb self; V2.status := V2.status self;
              V2.clusters := cl |}, V2.RespClusters cl) /\
    V2.cluster_lines (str_splitlines reply) [] = Ok cl.
Proof.
  unfold V2.cluster_clues.
  destruct (V2.block_lines _); cbn [bind]; [|discriminate].
  destruct (V2.cluster_lines _ _) as [cl|]; cbn [bind]; [|discriminate].
  intros H. injection H as <-. now exists cl.
Qed.



Lemma clue_lines_printable (flagged : list Z) (clues : Clues) :
  forall text,
    (exists t, V2.clue_lines flagged clues text = Ok t) <->
    printable_ids clues.
Proof.
  induction clues as [|[cid txt] clues IH]; intros text.
  - split; [constructor | now exists text].
  - cbn [V2.clue_lines V2.clue_line]. unfold py_str.
    destruct (Z.leb_spec (10 ^ int_max_str_digits) (Z.abs cid)) as [Hc|Hc];
      cbn [bind].
    + split; [intros (t & Ht); discriminate|].
      intros H. inversion H as [|? ? Hh _]; subst. cbn [fst] in Hh. lia.
    + rewrite IH. split; [now constructor|].
      intros H. now inversion H.
Qed.

Lemma clue_lines_raise (flagged : list Z) (clues : Clues) (e : PyExc) :
  forall text, V2.clue_lines flagged clues text = Raise e -> e = ValueError.
Proof.
  induction clues as [|[cid txt] clues IH]; intros text; [discriminate|].
  cbn [V2.clue_lines V2.clue_line].
  destruct (py_str cid) eqn:Hs; cbn [bind]; [apply IH|].
  intros H. injection H as <-. now apply py_str_raise in Hs.
Qed.

Lemma clues_to_text_raise (self : V2.ClueMeisterAgent E) (e : PyExc) :
  V2.clues_to_text E self = Raise e -> e = ValueError.
Proof.
  unfold V2.clues_to_text.
  destruct (V2.clue_lines _ _ _) eqn:Hl; cbn [bind]; [discriminate|].
  intros H. injection H as <-. now apply clue_lines_raise in Hl.
Qed.

Lemma flag_matches_short (matches : list string) :
  Forall (fun m => str_isdigit m = true) matches ->
  Forall short matches ->
  forall k,
    exists ids,
      V2.flag_matches E matches k = Ok (add_flags E ids k) /\
      Forall2 (fun m n => py_int m = Ok n) matches ids /\
      Forall (Z.le 0) ids.
Proof.
  induction 1 as [|m matches Hm _ IH]; intros Hs k.
  - exists []. repeat split; constructor.
  - inversion Hs as [|? ? Hsm Hs']; subst. cbn [V2.flag_matches].
    destruct (py_int_isdigit m Hm Hsm) as (n & Hn & Hpos). rewrite Hn.
    cbn [bind].
    destruct (IH Hs' (V2.kb_add_clue_tag E n "ai_flagged" k))
      as (ids & -> & Hall & Hsign).
    exists (n :: ids). repeat split; [now constructor | now constructor].
Qed.

End WithCollaborators.
End ClusterFacts.

(* ================================================================== *)
(** * Further properties: ClueMeisterAgentV2 *)

Section V2Properties.
Local Open Scope string_scope.
Local Open Scope list_scope.
Local Open Scope Z_scope.

(** X12. When [extract_clue] returns, the clues it reports hold no clue
    twice, no empty clue and no clue with blanks at its ends; each of them
    was read from a line starting with ['Clue:'] of one of the replies; and
    the knowledge base has received exactly these clues, in this order. *)
Theorem v2_extract_clue_found_clean (E : V2.Collaborators)
  (replies : list string) (self self' : V2.ClueMeisterAgent E)
  (r : V2.Response) :
  V2.extract_clue E replies self = Some (self', r) ->
  exists found,
    r = V2.RespFound found /\ clean_clues found /\
    (forall c, In c found -> read_from replies c) /\
    self' = V2.with_kb E self
              (fold_left (fun k c => V2.kb_add_clue E c k) found
                         (V2.kb self)).
Proof.
  unfold V2.extract_clue.
  destruct (V2.extract_loop replies []) as [found|] eqn:Hl; [|discriminate].
  intros H. injection H as <- <-.
  assert (clean_clues []) as H0 by (split; constructor).
  destruct (extract_loop_clean replies [] found H0 Hl)
    as (Hc & added & -> & Hadd).
  exists added. cbn [app]. repeat split; auto; apply Hc.
Qed.

Lemma v2_extract_clue_found_clean_witness :
  V2.extract_clue sample_collaborators sample_extract_replies sample_agent
  = Some (V2.with_kb sample_collaborators sample_agent
            (fold_left (fun k c => V2.kb_add_clue sample_collaborators c k)
                       sample_found (V2.kb sample_agent)),
          V2.RespFound sample_found) /\
  exists found,
    V2.RespFound sample_found = V2.RespFound found /\ clean_clues found /\
    (forall c, In c found -> read_from sample_extract_replies c) /\
    V2.with_kb sample_collaborators sample_agent
      (fold_left (fun k c => V2.kb_add_clue sample_collaborators c k)
                 sample_found (V2.kb sample_agent))
    = V2.with_kb sample_collaborators sample_agent
        (fold_left (fun k c => V2.kb_add_clue sample_collaborators c k)
                   found (V2.kb sample_agent)).
Proof.
  split; [vm_compute; reflexivity|].
  apply (v2_extract_clue_found_clean sample_collaborators
           sample_extract_replies sample_agent).
  vm_compute. reflexivity.
Defined.

(** X13. [extract_clue] returns exactly when one of the replies of the
    model does not contain ['Clue:']: as long as every reply contains it,
    the loop asks again. The replies after the first such reply are not
    used. A reply that contains ['Clue:'] but has no line starting with it
    adds no clue, and the model is asked again. *)
Theorem v2_extract_clue_returns_iff (E : V2.Collaborators)
  (replies : list string) (self : V2.ClueMeisterAgent E) :
  (V2.extract_clue E replies self <> None <->
   exists r, In r replies /\ str_contains "Clue:" r = false) /\
  (forall before r after,
     replies = before ++ r :: after -> str_contains "Clue:" r = false ->
     V2.extract_clue E replies self
     = V2.extract_clue E (before ++ [r]) self) /\
  (forall r rest,
     replies = r :: rest -> str_contains "Clue:" r = true ->
     (forall line, In line (str_splitlines r) ->
                   str_startswith line "Clue:" = false) ->
     V2.extract_clue E replies self = V2.extract_clue E rest self).
Proof.
  split; [|split].
  - rewrite <- (extract_loop_ends replies []). unfold V2.extract_clue.
    destruct (V2.extract_loop replies []); split; intros H;
      try discriminate; now elim H.
  - intros before r after -> Hr. unfold V2.extract_clue.
    now rewrite (extract_loop_unused before r after [] Hr).
  - intros r rest -> Hc Hl. unfold V2.extract_clue.
    cbn [V2.extract_loop]. rewrite Hc. cbn [negb].
    now rewrite (extract_reply_no_line [] r Hl).
Qed.





(** X16. [cluster_clues] replaces the clusters as a whole: when a request
    that reaches it answers with clusters, every cluster number in them
    was read from a line of this reply (clusters of an earlier request are
    gone unless the reply lists them again), and a [get_clusters] request
    that follows answers with the same clusters and changes nothing. *)
Theorem v2_clusters_replaced (E : V2.Collaborators) (reply : string)
  (self self' : V2.ClueMeisterAgent E) (message : V2.Msg.ClueMessage)
  (cl : V2.Clusters) :
  cluster_reached message = true ->
  V2.process_request E reply self message = (self', V2.RespClusters cl) ->
  V2.clusters self' = cl /\
  (forall cid, In cid (map fst cl) -> cluster_of_line reply cid) /\
  forall reply',
    V2.process_request E reply' self' v2_request_get_clusters
    = (self', V2.RespClusters cl).
Proof.
  unfold cluster_reached. intros H.
  repeat (apply andb_prop in H; destruct H as [H ?]).
  repeat match goal with
         | H : negb _ = true |- _ => apply negb_true_iff in H
         end.
  unfold V2.process_request at 1. unfold V2.process_request_try.
  repeat match goal with H : _ = _ |- _ => rewrite H end.
  destruct (V2.cluster_clues E reply self) as [out|e] eqn:Hc;
    [|discriminate].
  destruct (cluster_clues_returns E reply self out Hc) as (cl' & -> & Hl).
  intros Heq. injection Heq as <- <-.
  split; [reflexivity|]. split; [|reflexivity].
  intros cid Hin.
  destruct (proj2 (cluster_lines_good _ _ _ Hl good_clusters_nil) cid Hin)
    as [[]|Hline].
  exact Hline.
Qed.

Lemma v2_clusters_replaced_witness :
  cluster_reached v2_request_cluster_clues = true /\
  V2.process_request sample_collaborators sample_cluster_reply
    (with_clusters sample_agent [(7, [8])]) v2_request_cluster_clues
  = (with_clusters sample_agent sample_clusters,
     V2.RespClusters sample_clusters) /\
  V2.clusters (with_clusters sample_agent sample_clusters)
  = sample_clusters /\
  (forall cid, In cid (map fst sample_clusters) ->
               cluster_of_line sample_cluster_reply cid) /\
  forall reply',
    V2.process_request sample_collaborators reply'
      (with_clusters sample_agent sample_clusters) v2_request_get_clusters
    = (with_clusters sample_agent sample_clusters,
       V2.RespClusters sample_clusters).
Proof.
  split; [reflexivity|]. split; [vm_compute; reflexivity|].
  apply (v2_clusters_replaced sample_collaborators sample_cluster_reply
           (with_clusters sample_agent [(7, [8])])
           (with_clusters sample_agent sample_clusters)
           v2_request_cluster_clues sample_clusters).
  - reflexivity.
  - vm_compute. reflexivity.
Defined.

(** X17. What [process_request] leaves alone: it never changes the
    status; it changes the knowledge base only for a [flag_clue] key with a
    value (the clue id 0 included: the test is [is not None]) or for a
    non-empty [ask_human_query] that is reached; it changes the clusters
    only when [cluster_clues] is reached. A [flag_clue] key decides before
    every other key. *)
Theorem v2_process_request_frame (E : V2.Collaborators) (reply : string)
  (self : V2.ClueMeisterAgent E) (message : V2.Msg.ClueMessage) :
  V2.status (fst (V2.process_request E reply self message))
  = V2.status self /\
  (V2.Msg.flag_clue message = None -> query_reached message = false ->
   V2.kb (fst (V2.process_request E reply self message)) = V2.kb self) /\
  (cluster_reached message = false ->
   V2.clusters (fst (V2.process_request E reply self message))
   = V2.clusters self) /\
  (forall cid, V2.Msg.flag_clue message = Some cid ->
     V2.process_request E reply self message
     = (V2.with_kb E self
          (V2.kb_add_clue_tag E cid "ai_flagged" (V2.kb self)),
        V2.RespClueId cid)).
Proof.
  unfold query_reached, cluster_reached, V2.process_request,
    V2.process_request_try.
  destruct message as [f gc gs q cc gcl]. cbn [V2.Msg.flag_clue
    V2.Msg.get_clues V2.Msg.get_status V2.Msg.ask_human_query
    V2.Msg.cluster_clues V2.Msg.get_clusters].
  destruct f as [cid|]; cbn [present msg_getitem bind negb andb].
  { repeat split; try discriminate. intros c H. now injection H as <-. }
  destruct (truthy gc); cbn [negb andb].
  { destruct (V2.clues_to_text E self); cbn [bind fst];
      repeat split; discriminate. }
  destruct (truthy gs); cbn [negb andb].
  { repeat split; discriminate. }
  destruct (V2.truthy_str q) eqn:Hq; cbn [negb andb].
  { destruct q as [q|]; [|discriminate Hq]. cbn [msg_getitem bind fst].
    repeat split; discriminate. }
  destruct (truthy cc); cbn [negb andb].
  { destruct (V2.cluster_clues E reply self) as [out|e] eqn:Hc.
    - destruct (cluster_clues_returns E reply self out Hc) as (cl & -> & _).
      repeat split; discriminate.
    - repeat split; discriminate. }
  destruct (truthy gcl); repeat split; discriminate.
Qed.

(** X18. [_apply_rules] never changes the coordinates of the clue and
    never lowers its priority. It returns [False] exactly when the clue is
    outside the grid, and then the clue is as before. Otherwise the
    priority grows by 10 if the photo path meets the coordinates, by 20 if
    the drone overlaps them, and by 5 or nothing for the interviews: by at
    most 35. *)
Theorem v2_apply_rules_priority (E : V2.Collaborators)
  (self : V2.ClueMeisterAgent E) (clue : V2.Clue (V2.Coordinates E)) :
  let out := V2._apply_rules E self clue in
  V2.coordinates (fst out) = V2.coordinates clue /\
  V2.priority clue <= V2.priority (fst out) <= V2.priority clue + 35 /\
  (snd out = false <->
   V2.kb_is_within_grid E (V2.kb self) (V2.coordinates clue) = false) /\
  (snd out = false -> fst out = clue) /\
  (snd out = true ->
   exists d,
     (d = 0 \/ d = 5) /\
     V2.priority (fst out)
     = V2.priority clue
       + (if V2.photo_path_intersects E (V2.coordinates clue)
          then 10 else 0)
       + (if V2.drone_overlaps E (V2.coordinates clue) then 20 else 0)
       + d).
Proof.
  unfold V2._apply_rules, V2.boost.
  destruct (V2.kb_is_within_grid E (V2.kb self) (V2.coordinates clue));
    cbn [negb fst snd].
  - destruct (V2.photo_path_intersects E (V2.coordinates clue));
      cbn [V2.coordinates V2.priority];
      destruct (V2.drone_overlaps E (V2.coordinates clue));
      cbn [V2.coordinates V2.priority];
      destruct (V2.kb_interview_supports_path E (V2.kb self) _);
      cbn [V2.coordinates V2.priority];
      (split; [reflexivity|]); (split; [lia|]);
      (split; [split; discriminate|]); (split; [discriminate|]);
      intros _; ((exists 5; split; [now right | lia])
                 || (exists 0; split; [now left | lia])).
  - split; [reflexivity|]. split; [lia|].
    split; [now split|]. split; [reflexivity | discriminate].
Qed.

(** X19. With clue ids that [str] can write and a reply of at most 4300
    characters, [flag_clues] returns: it tags the ids of the matches of
    [!digits!] in the reply, one tag for each match in their order, none
    of them negative, and reports how many matches there were. *)
Theorem v2_flag_clues_returns (E : V2.Collaborators) (reply : string)
  (self : V2.ClueMeisterAgent E) :
  printable_ids (V2.kb_get_clues E (V2.kb self)) ->
  short reply ->
  exists ids,
    V2.flag_clues E reply self
    = Ok (V2.with_kb E self (add_flags E ids (V2.kb self)),
          V2.RespInfo ("Flagged "
                       ++ str_of_int (Z.of_nat (List.length ids))
                       ++ " clues")) /\
    Forall2 (fun m n => py_int m = Ok n) (findall_flags reply) ids /\
    Forall (Z.le 0) ids.
Proof.
  intros Hp Hs. unfold V2.flag_clues, V2.clues_to_text.
  destruct (proj2 (clue_lines_printable
                     (V2.tags_get (V2.kb_clue_tags E (V2.kb self))
                                  "ai_flagged")
                     _ ("Clues:" ++ V2.newline)) Hp) as (t & ->).
  cbn [bind].
  destruct (flag_matches_short E (findall_flags reply)
              (findall_from_digits reply 0)) with (k := V2.kb self)
    as (ids & -> & Hall & Hsign).
  - eapply Forall_impl; [|apply findall_from_length]. intros m Hm.
    cbn beta in Hm. now apply (short_le m reply).
  - cbn [bind]. exists ids. split; [|now split].
    now rewrite (Forall2_length Hall).
Qed.

Lemma v2_flag_clues_returns_witness :
  printable_ids (V2.kb_get_clues sample_collaborators (V2.kb sample_agent)) /\
  short sample_flag_reply /\
  exists ids,
    V2.flag_clues sample_collaborators sample_flag_reply sample_agent
    = Ok (V2.with_kb sample_collaborators sample_agent
            (add_flags sample_collaborators ids (V2.kb sample_agent)),
          V2.RespInfo ("Flagged "
                       ++ str_of_int (Z.of_nat (List.length ids))
                       ++ " clues")) /\
    Forall2 (fun m n => py_int m = Ok n)
            (findall_flags sample_flag_reply) ids /\
    Forall (Z.le 0) ids.
Proof.
  assert (printable_ids
            (V2.kb_get_clues sample_collaborators (V2.kb sample_agent)))
    as Hp.
  { repeat (constructor; [vm_compute; reflexivity|]). constructor. }
  assert (short sample_flag_reply) as Hs.
  { vm_compute. intros H. discriminate H. }
  split; [exact Hp|]. split; [exact Hs|].
  exact (v2_flag_clues_returns sample_collaborators sample_flag_reply
           sample_agent Hp Hs).
Defined.

(** X20. [clues_to_text] returns its text exactly when every clue id of
    the knowledge base has at most 4300 digits; otherwise it raises, and
    [ValueError] is the only exception it raises. *)
Theorem v2_clues_to_text_returns_iff (E : V2.Collaborators)
  (self : V2.ClueMeisterAgent E) :
  ((exists text, V2.clues_to_text E self = Ok (V2.RespClueText text)) <->
   printable_ids (V2.kb_get_clues E (V2.kb self))) /\
  (forall e, V2.clues_to_text E self = Raise e -> e = ValueError).
Proof.
  split; [|intros e; apply clues_to_text_raise].
  rewrite <- (clue_lines_printable
                (V2.tags_get (V2.kb_clue_tags E (V2.kb self)) "ai_flagged")
                _ ("Clues:" ++ V2.newline)).
  unfold V2.clues_to_text.
  destruct (V2.clue_lines _ _ _) as [t|e]; cbn [bind]; split.
  - intros _. now exists t.
  - intros _. now exists t.
  - intros (t & H). discriminate H.
  - intros (t & H). discriminate H.
Qed.
End V2Properties.

(* ================================================================== *)
(** * The agent on all values: the typed agent inside it *)

Section DynFacts.
Local Open Scope string_scope.
Local Open Scope list_scope.

Lemma min_rest_map {A B : Type} (f : B -> result F64.float) (g : A -> B)
  (l : list A) :
  forall cur, min_rest f cur (map g l) = min_rest (fun x => f (g x)) cur l.
Proof.
  induction l as [|x l IH]; intros cur; [reflexivity|].
  cbn [map min_rest]. destruct (f (g x)); cbn [bind]; [apply IH|].
  reflexivity.
Qed.

Lemma py_min_map {A B : Type} (f : B -> result F64.float) (g : A -> B)
  (l : list A) :
  py_min f (map g l) = py_min (fun x => f (g x)) l.
Proof.
  destruct l as [|x l]; [reflexivity|]. cbn [map py_min].
  destruct (f (g x)); cbn [bind]; [apply min_rest_map | reflexivity].
Qed.

Lemma dyn_distance_typed (c q : Coord) :
  Dyn._euclidean_distance c (of_coord q) = _euclidean_distance c q.
Proof. reflexivity. Qed.

Lemma dyn_min_distance_typed (a : ClueMeisterAgent) (c : Coord) :
  Dyn._min_distance_to_path (of_agent a) c = _min_distance_to_path a c.
Proof.
  unfold Dyn._min_distance_to_path, _min_distance_to_path, of_agent,
    of_path.
  cbn [Dyn.path Dyn.py_iter bind]. now rewrite py_min_map.
Qed.

Lemma dyn_score_clue_typed (a : ClueMeisterAgent) (desc : string) :
  Dyn.score_clue (of_agent a) desc = score_clue a desc.
Proof.
  unfold Dyn.score_clue, score_clue.
  destruct (_parse_clue desc) as [[ty c]|]; cbn [bind]; [|reflexivity].
  destruct (dict_getitem CLUE_TYPE_POINTS "unknown"); cbn [bind];
    [|reflexivity].
  now rewrite dyn_min_distance_typed.
Qed.

Lemma dyn_rank_loop_typed (a : ClueMeisterAgent) (clues : Clues) :
  Dyn.rank_loop (of_agent a) clues = rank_loop a clues.
Proof.
  induction clues as [|[cid desc] clues IH]; [reflexivity|].
  cbn [Dyn.rank_loop rank_loop]. now rewrite dyn_score_clue_typed, IH.
Qed.

(** On a path of float pairs the two agents rank alike. *)
Lemma dyn_rank_clues_typed (a : ClueMeisterAgent) :
  Dyn.rank_clues (of_agent a) = rank_clues a.
Proof.
  unfold Dyn.rank_clues, rank_clues. rewrite dyn_rank_loop_typed.
  unfold of_agent, of_path. cbn [Dyn.path Dyn.kb].
  now destruct (path a).
Qed.

Lemma get_truth_typed (b : option bool) :
  Dyn.get_truth (option_map Dyn.VBool b) = truthy b.
Proof. now destruct b. Qed.

(** On a message that keeps the declared types the two agents answer
    alike, and are alike afterwards. *)
Lemma dyn_process_request_typed (a : ClueMeisterAgent)
  (m : Msg.ClueMessage) :
  Dyn.process_request (of_agent a) (of_message m)
  = (of_agent (fst (process_request a m)), snd (process_request a m)).
Proof.
  unfold Dyn.process_request, process_request, process_request_try,
    of_message.
  cbn [Dyn.Msg.get_clues Dyn.Msg.get_status Dyn.Msg.update_path
       Dyn.Msg.rank_clues].
  rewrite !get_truth_typed.
  destruct (truthy (Msg.get_clues m)); [reflexivity|].
  destruct (truthy (Msg.get_status m)); [reflexivity|].
  destruct (Msg.update_path m) as [P|]; cbn [option_map present].
  - cbn [msg_getitem bind fst snd]. unfold Dyn.with_path, of_agent, of_path.
    cbn [Dyn.path Dyn.py_len Dyn.kb Dyn.status with_path path kb status].
    now rewrite length_map.
  - destruct (truthy (Msg.rank_clues m)); [|reflexivity].
    rewrite dyn_rank_clues_typed.
    now destruct (rank_clues a).
Qed.

(** ** What the agent raises on any value *)

Lemma py_item_raise (v : Dyn.PyVal) (i : nat) (e : PyExc) :
  Dyn.py_item v i = Raise e -> ill_typed e.
Proof.
  unfold ill_typed, Dyn.py_item, py_index.
  destruct v as [| | | |s|items|items];
    try (intros H; injection H as <-; auto).
  - destruct (String.get i s); [discriminate|].
    intros H. injection H as <-. auto.
  - destruct (nth_error items i); [discriminate|].
    intros H. injection H as <-. auto.
Qed.

Lemma int_to_float_raise (n : Z) (e : PyExc) :
  Dyn.int_to_float n = Raise e -> e = OverflowError.
Proof.
  unfold Dyn.int_to_float. destruct (F64.of_int n); try discriminate.
  intros H. now injection H as <-.
Qed.

Lemma float_minus_raise (x : F64.float) (v : Dyn.PyVal) (e : PyExc) :
  Dyn.float_minus x v = Raise e -> e = OverflowError \/ ill_typed e.
Proof.
  unfold ill_typed, Dyn.float_minus.
  destruct v as [|b|n|y|s|items|items];
    try discriminate; try (intros H; injection H as <-; auto).
  - destruct (Dyn.int_to_float (if b then 1 else 0)%Z) eqn:Hi;
      cbn [bind]; [discriminate|].
    intros H. injection H as <-. left. exact (int_to_float_raise _ _ Hi).
  - destruct (Dyn.int_to_float n) eqn:Hi; cbn [bind]; [discriminate|].
    intros H. injection H as <-. left. exact (int_to_float_raise _ _ Hi).
Qed.

Lemma float_pow2_raise (x : F64.float) (e : PyExc) :
  float_pow2 x = Raise e -> e = OverflowError.
Proof.
  intros H. pose proof (float_pow2_outcome x) as Ho. now rewrite H in Ho.
Qed.

Lemma float_pow2_returns (x r : F64.float) :
  float_pow2 x = Ok r -> nonneg_or_nan r.
Proof.
  intros H. pose proof (float_pow2_outcome x) as Ho. now rewrite H in Ho.
Qed.

Lemma dyn_distance_raise (c : Coord) (v : Dyn.PyVal) (e : PyExc) :
  Dyn._euclidean_distance c v = Raise e -> e = OverflowError \/ ill_typed e.
Proof.
  unfold Dyn._euclidean_distance.
  destruct (Dyn.py_item v 0) as [a|e0] eqn:Ha; cbn [bind];
    [|intros H; injection H as <-; right; exact (py_item_raise _ _ _ Ha)].
  destruct (Dyn.float_minus (fst c) a) as [dx|e0] eqn:Hdx; cbn [bind];
    [|intros H; injection H as <-; exact (float_minus_raise _ _ _ Hdx)].
  destruct (float_pow2 dx) as [dx2|e0] eqn:Hx; cbn [bind];
    [|intros H; injection H as <-; left; exact (float_pow2_raise _ _ Hx)].
  destruct (Dyn.py_item v 1) as [b|e0] eqn:Hb; cbn [bind];
    [|intros H; injection H as <-; right; exact (py_item_raise _ _ _ Hb)].
  destruct (Dyn.float_minus (snd c) b) as [dy|e0] eqn:Hdy; cbn [bind];
    [|intros H; injection H as <-; exact (float_minus_raise _ _ _ Hdy)].
  destruct (float_pow2 dy) as [dy2|e0] eqn:Hy; cbn [bind];
    [|intros H; injection H as <-; left; exact (float_pow2_raise _ _ Hy)].
  destruct (math_sqrt_returns _
              (add_nonneg_or_nan dx2 dy2 (float_pow2_returns _ _ Hx)
                 (float_pow2_returns _ _ Hy))) as [r ->].
  discriminate.
Qed.

Lemma py_min_raise {A : Type} (f : A -> result F64.float) (ps : list A)
  (e : PyExc) :
  py_min f ps = Raise e -> ps = [] \/ exists p, In p ps /\ f p = Raise e.
Proof.
  destruct ps as [|p ps]; [now left|]. cbn [py_min]. intros H. right.
  destruct (f p) as [d|e'] eqn:Hp; cbn [bind] in H.
  - destruct (min_rest_raise _ _ _ _ H) as (q & Hq & Hfq).
    exists q. split; [now right | exact Hfq].
  - injection H as ->. exists p. split; [now left | exact Hp].
Qed.

(** What can be iterated and is true has an item. *)
Lemma py_iter_true (v : Dyn.PyVal) (ps : list Dyn.PyVal) :
  Dyn.py_bool v = true -> Dyn.py_iter v = Ok ps -> ps <> [].
Proof.
  destruct v as [|b|n|y|s|items|items]; cbn [Dyn.py_iter]; try discriminate.
  - destruct s; [discriminate|]. intros _ H. injection H as <-.
    discriminate.
  - destruct items; [discriminate|]. intros _ H. injection H as <-.
    discriminate.
  - destruct items; [discriminate|]. intros _ H. injection H as <-.
    discriminate.
Qed.

Lemma py_iter_raise (v : Dyn.PyVal) (e : PyExc) :
  Dyn.py_iter v = Raise e -> e = TypeError.
Proof.
  destruct v; cbn [Dyn.py_iter]; try discriminate;
    intros H; now injection H as <-.
Qed.

Lemma py_len_raise (v : Dyn.PyVal) (e : PyExc) :
  Dyn.py_len v = Raise e -> e = TypeError.
Proof.
  destruct v; cbn [Dyn.py_len]; try discriminate;
    intros H; now injection H as <-.
Qed.

Lemma dyn_min_distance_raise (self : Dyn.ClueMeisterAgent) (c : Coord)
  (e : PyExc) :
  Dyn.py_bool (Dyn.path self) = true ->
  Dyn._min_distance_to_path self c = Raise e ->
  e = OverflowError \/ ill_typed e.
Proof.
  intros Ht. unfold Dyn._min_distance_to_path.
  destruct (Dyn.py_iter (Dyn.path self)) as [ps|e0] eqn:Hi; cbn [bind].
  - intros H. destruct (py_min_raise _ _ _ H) as [->|(p & _ & Hp)].
    + now elim (py_iter_true _ _ Ht Hi).
    + exact (dyn_distance_raise _ _ _ Hp).
  - intros H. injection H as <-. right. left.
    exact (py_iter_raise _ _ Hi).
Qed.

Lemma dyn_score_clue_raise (self : Dyn.ClueMeisterAgent) (desc : string)
  (e : PyExc) :
  Dyn.py_bool (Dyn.path self) = true ->
  Dyn.score_clue self desc = Raise e -> e = OverflowError \/ ill_typed e.
Proof.
  intros Ht. unfold Dyn.score_clue. rewrite unknown_points.
  destruct (parse_clue_returns desc) as [[ty c] ->]. cbn [bind].
  destruct (Dyn._min_distance_to_path self c) as [d|e'] eqn:Hd;
    cbn [bind]; [discriminate|].
  intros H. injection H as <-.
  exact (dyn_min_distance_raise self c _ Ht Hd).
Qed.

Lemma dyn_rank_loop_raise (self : Dyn.ClueMeisterAgent) (clues : Clues)
  (e : PyExc) :
  Dyn.rank_loop self clues = Raise e ->
  exists cid desc,
    In (cid, desc) clues /\ Dyn.score_clue self desc = Raise e.
Proof.
  induction clues as [|[cid desc] clues IH]; intros H; [discriminate|].
  cbn [Dyn.rank_loop] in H.
  destruct (Dyn.score_clue self desc) as [s|e'] eqn:Hs.
  - cbn [bind] in H.
    destruct (Dyn.rank_loop self clues) as [r|e'']; [discriminate|].
    cbn [bind] in H. injection H as ->.
    destruct (IH eq_refl) as (c & d & Hin & Hd).
    exists c, d. split; [now right | exact Hd].
  - cbn [bind] in H. injection H as ->.
    exists cid, desc. split; [now left | exact Hs].
Qed.

(** [rank_clues] on any stored value: what it raises is an
    [OverflowError] or the exception of an ill-typed value, and it raises
    only on a path that is true and with a clue to score. *)
Lemma dyn_rank_clues_raise (self : Dyn.ClueMeisterAgent) (e : PyExc) :
  Dyn.rank_clues self = Raise e ->
  (e = OverflowError \/ ill_typed e) /\
  Dyn.py_bool (Dyn.path self) = true /\ Dyn.kb self <> [].
Proof.
  unfold Dyn.rank_clues.
  destruct (Dyn.py_bool (Dyn.path self)) eqn:Ht; cbn [negb];
    [|discriminate].
  destruct (Dyn.rank_loop self (Dyn.kb self)) as [r|e'] eqn:Hl;
    cbn [bind]; [discriminate|].
  intros H. injection H as <-.
  destruct (dyn_rank_loop_raise self _ _ Hl) as (c & d & Hin & Hs).
  split; [exact (dyn_score_clue_raise self d _ Ht Hs)|].
  split; [reflexivity|]. intros E. rewrite E in Hin. exact Hin.
Qed.
End DynFacts.

Section DynProperties.
Local Open Scope string_scope.
Local Open Scope list_scope.

(** X1. What [rank_clues] raises. The path is stored as the message holds
    it, without a check, so [rank_clues] meets any value there. Whatever
    the value, it raises nothing but [OverflowError], [TypeError],
    [IndexError] and [KeyError], each of which a value does give; it
    raises only on a path that is true and with a clue to score. On a path
    that is a list of float pairs it raises nothing but [OverflowError],
    and raises it exactly when the path is not empty and, for some clue
    and some vertex, a squared coordinate difference is out of range. *)
Theorem rank_clues_exceptions (self : Dyn.ClueMeisterAgent) :
  (forall e,
     Dyn.rank_clues self = Raise e ->
     (e = OverflowError \/ e = TypeError \/ e = IndexError \/ e = KeyError)
     /\ Dyn.py_bool (Dyn.path self) = true /\ Dyn.kb self <> []) /\
  (forall a : ClueMeisterAgent,
     self = of_agent a ->
     (forall e, Dyn.rank_clues self = Raise e -> e = OverflowError) /\
     (Dyn.rank_clues self = Raise OverflowError <->
      path a <> [] /\
      exists cid desc clue_type coord p,
        In (cid, desc) (kb a) /\
        _parse_clue desc = Ok (clue_type, coord) /\
        In p (path a) /\
        _euclidean_distance coord p = Raise OverflowError)) /\
  Dyn.rank_clues
    (agent_on (Dyn.VList [Dyn.VList [Dyn.VInt (10 ^ 400); Dyn.VInt 0]]))
  = Raise OverflowError /\
  Dyn.rank_clues (agent_on (Dyn.VInt 5)) = Raise TypeError /\
  Dyn.rank_clues (agent_on (Dyn.VList [Dyn.VList [Dyn.VInt 1]]))
  = Raise IndexError /\
  Dyn.rank_clues (agent_on (Dyn.VList [Dyn.VDict [("lat", Dyn.VInt 1)]]))
  = Raise KeyError.
Proof.
  split; [|split].
  - intros e H. destruct (dyn_rank_clues_raise self e H) as (He & Ht & Hk).
    unfold ill_typed in He. repeat split; tauto.
  - intros a ->. rewrite dyn_rank_clues_typed.
    exact (rank_clues_raises_iff_overflow a).
  - repeat split; vm_compute; reflexivity.
Qed.

(** X9. The error responses of [process_request], on messages that hold
    any value. An error response is the literal ["Unknown request type"];
    or the literal ["Path is not set"], when the stored path is false; or
    the text of a [TypeError] from [len] in the [update_path] branch, and
    then the path has been replaced all the same; or the text of what
    [rank_clues] raised, an [OverflowError], [TypeError], [IndexError] or
    [KeyError], on a path that is true. On messages that keep the declared
    types only the first two and the [OverflowError] are left. *)
Theorem process_request_error_responses (self : Dyn.ClueMeisterAgent)
  (message : Dyn.Msg.ClueMessage) (msg : ErrorText) :
  snd (Dyn.process_request self message) = RespError msg ->
  (msg = Literal "Unknown request type" \/
   (msg = Literal "Path is not set" /\
    Dyn.py_bool (Dyn.path self) = false) \/
   (msg = StrOf TypeError /\
    exists v,
      Dyn.Msg.update_path message = Some v /\
      Dyn.py_len v = Raise TypeError /\
      Dyn.path (fst (Dyn.process_request self message)) = v) \/
   (exists e,
      msg = StrOf e /\ Dyn.rank_clues self = Raise e /\
      (e = OverflowError \/ e = TypeError \/ e = IndexError \/
       e = KeyError) /\
      Dyn.py_bool (Dyn.path self) = true)) /\
  forall a m,
    self = of_agent a -> message = of_message m ->
    msg = Literal "Unknown request type" \/
    (msg = Literal "Path is not set" /\ path a = []) \/
    (msg = StrOf OverflowError /\ path a <> []).
Proof.
  intros H. split.
  - revert H. unfold Dyn.process_request.
    destruct (Dyn.get_truth (Dyn.Msg.get_clues message)); [discriminate|].
    destruct (Dyn.get_truth (Dyn.Msg.get_status message)); [discriminate|].
    destruct (Dyn.Msg.update_path message) as [v|].
    + cbn [Dyn.with_path Dyn.path].
      destruct (Dyn.py_len v) as [n|e] eqn:Hl; cbn [snd fst];
        [discriminate|].
      intros H. injection H as <-. right. right. left.
      assert (e = TypeError) as -> by exact (py_len_raise v e Hl).
      split; [reflexivity|]. exists v.
      split; [reflexivity|]. split; [exact Hl | reflexivity].
    + destruct (Dyn.get_truth (Dyn.Msg.rank_clues message)).
      * destruct (Dyn.rank_clues self) as [r|e] eqn:Hr; cbn [snd].
        -- intros ->. right. left. split.
           ++ unfold Dyn.rank_clues in Hr.
              destruct (Dyn.py_bool (Dyn.path self)); cbn [negb] in Hr.
              ** destruct (Dyn.rank_loop _ _); discriminate.
              ** now injection Hr as <-.
           ++ unfold Dyn.rank_clues in Hr.
              destruct (Dyn.py_bool (Dyn.path self)); [|reflexivity].
              cbn [negb] in Hr. destruct (Dyn.rank_loop _ _); discriminate.
        -- intros H. injection H as <-. right. right. right.
           destruct (dyn_rank_clues_raise self e Hr) as (He & Ht & _).
           exists e. unfold ill_typed in He.
           repeat split; auto; tauto.
      * cbn [snd]. intros H. injection H as <-. now left.
  - intros a m -> ->. rewrite dyn_process_request_typed in H.
    cbn [snd] in H. exact (error_responses_classified a m msg H).
Qed.

Lemma process_request_error_responses_witness :
  snd (Dyn.process_request (agent_on (Dyn.VList [Dyn.VList [Dyn.VInt 1]]))
         dyn_request_rank_clues)
  = RespError (StrOf IndexError) /\
  exists e,
    StrOf IndexError = StrOf e /\
    Dyn.rank_clues (agent_on (Dyn.VList [Dyn.VList [Dyn.VInt 1]]))
    = Raise e /\
    (e = OverflowError \/ e = TypeError \/ e = IndexError \/ e = KeyError).
Proof.
  split; [vm_compute; reflexivity|].
  destruct (proj1 (process_request_error_responses
                     (agent_on (Dyn.VList [Dyn.VList [Dyn.VInt 1]]))
                     dyn_request_rank_clues (StrOf IndexError) eq_refl))
    as [H|[[H _]|[[H _]|(e & He & Hr & Hc & _)]]];
    try discriminate H.
  exists e. auto.
Defined.
End DynProperties.
